(** * IO::Common: FourCC tag codec and chunk containers

    A shallow embedding of [src/IO/Common.hpp]: the FourCC encoder and the two
    decoders, the storage selection of [DataArrayChunk], the inline accessors
    of the three chunk kinds, and the constraints of the member templates.

    Machine integers are mathematical integers with the wrap-around of their
    C++ type written out: [Z] for the 32-bit values of the tag codec (where a
    signed [int] appears through integral promotion), [N] for [std::size_t]
    and for stored 32-bit offsets. *)

From Stdlib.Strings Require Import Byte String.
From Stdlib Require Import ZArith NArith List Bool Lia.
Import ListNotations.
Local Open Scope Z_scope.

(** ** Machine integers *)

(** Conversion to [std::uint32_t]: reduction modulo 2^32. *)
Definition to_uint32 (z : Z) : Z := z mod 2 ^ 32.

(** Conversion to a 32-bit [int] (two's complement, C++20). *)
Definition to_int32 (z : Z) : Z := (z + 2 ^ 31) mod 2 ^ 32 - 2 ^ 31.

(** [a << n] on [int]: the value congruent to [a * 2^n] modulo 2^32
    (C++20 [expr.shift]). *)
Definition int_shl (a n : Z) : Z := to_int32 (Z.shiftl a n).

(** [a | b] on [int]; [Z.lor] is the two's complement disjunction. *)
Definition int_or (a b : Z) : Z := Z.lor a b.

(** The value of a byte, [0 .. 255]. *)
Definition byte_val (b : byte) : Z := Z.of_N (Byte.to_N b).

(** The byte with a given bit pattern (the low eight bits of [z]). *)
Definition byte_of_Z (z : Z) : byte :=
  match Byte.of_N (Z.to_N (z mod 256)) with
  | Some b => b
  | None => x00
  end.

(** ** Plain [char]

    Whether plain [char] is signed is implementation-defined; it is a
    parameter, [char_is_signed], of everything that reads a [char] as a number
    or initialises one from a number. *)

(** Integral promotion of a [char] holding the byte [b] to [int]. *)
Definition char_to_int (char_is_signed : bool) (b : byte) : Z :=
  if char_is_signed && (128 <=? byte_val b) then byte_val b - 256 else byte_val b.

(** A [char] element of a braced initialiser list, initialised from the
    constant expression [v] of type [unsigned int] (here always [0 .. 255]).
    List-initialisation refuses a narrowing conversion: the program is
    ill-formed ([None]) when [v] is not a value of [char]. *)
Definition narrow_to_char (char_is_signed : bool) (v : Z) : option byte :=
  if char_is_signed && (127 <? v) then None else Some (byte_of_Z v).

(** [static_cast<char>(v)]: conversion modulo 2^8, never ill-formed. *)
Definition static_cast_char (v : Z) : byte := byte_of_Z v.

(** ** FourCC *)

Inductive FourCCEndian : Set :=
| LITTLE  (* = 0: chars are written right to left in the file *)
| BIG.    (* = 1: used in m2, chars are written left to right in the file *)

(** [static_cast<bool>(endian)]. *)
Definition endian_to_bool (endian : FourCCEndian) : bool :=
  match endian with
  | LITTLE => false
  | BIG => true
  end.

(** [Utils::Meta::Templates::StringLiteral] is declared outside this header;
    what [FourCC] uses of it is the array [value] of the literal's chars,
    terminating NUL included. *)
Record StringLiteral : Set := { value : list byte }.

(** The literal of a text: its chars followed by the terminating NUL. *)
Definition literal (chars : list byte) : StringLiteral :=
  {| value := chars ++ [x00] |}.

(** [fourcc.value[i]] promoted to [int]; reading past the array is not a
    constant expression ([None]). *)
Definition value_at (char_is_signed : bool) (fourcc : StringLiteral) (i : nat)
  : option Z :=
  option_map (char_to_int char_is_signed) (nth_error (value fourcc) i).

(** [FourCC<fourcc, endian>]. *)
Definition FourCC (char_is_signed : bool) (fourcc : StringLiteral)
    (endian : FourCCEndian) : option Z :=
  match value_at char_is_signed fourcc 0, value_at char_is_signed fourcc 1,
        value_at char_is_signed fourcc 2, value_at char_is_signed fourcc 3 with
  | Some v0, Some v1, Some v2, Some v3 =>
      Some (to_uint32
        (if endian_to_bool endian
         then int_or (int_or (int_or (int_shl v3 24) (int_shl v2 16)) (int_shl v1 8)) v0
         else int_or (int_or (int_or (int_shl v0 24) (int_shl v1 16)) (int_shl v2 8)) v3))
  | _, _, _, _ => None
  end.

(** The four initialiser expressions of both decoders, on [std::uint32_t]. *)
Definition decode_expr (fourcc_int : Z) (big : bool) (i : nat) : Z :=
  match i with
  | 0%nat => if big then Z.land fourcc_int 255 else Z.land (Z.shiftr fourcc_int 24) 255
  | 1%nat => if big then Z.land (Z.shiftr fourcc_int 8) 255 else Z.land (Z.shiftr fourcc_int 16) 255
  | 2%nat => if big then Z.land (Z.shiftr fourcc_int 16) 255 else Z.land (Z.shiftr fourcc_int 8) 255
  | _ => if big then Z.land (Z.shiftr fourcc_int 24) 255 else Z.land fourcc_int 255
  end.

(** [FourCCStr<fourcc_int, endian>]: the array [char[5]], or [None] when an
    initialiser does not fit [char]. *)
Definition FourCCStr (char_is_signed : bool) (fourcc_int : Z)
    (endian : FourCCEndian) : option (list byte) :=
  let big := endian_to_bool endian in
  match narrow_to_char char_is_signed (decode_expr fourcc_int big 0),
        narrow_to_char char_is_signed (decode_expr fourcc_int big 1),
        narrow_to_char char_is_signed (decode_expr fourcc_int big 2),
        narrow_to_char char_is_signed (decode_expr fourcc_int big 3) with
  | Some c0, Some c1, Some c2, Some c3 => Some [c0; c1; c2; c3; x00]
  | _, _, _, _ => None
  end.

(** Construction of a [std::string] from a NUL-terminated [const char] pointer:
    the chars before the first NUL. *)
Fixpoint string_of_c_str (p : list byte) : list byte :=
  match p with
  | [] => []
  | c :: p' => if Byte.eqb c x00 then [] else c :: string_of_c_str p'
  end.

(** [FourCCToStr(fourcc, is_big_endian)]. *)
Definition FourCCToStr (fourcc : Z) (is_big_endian : bool) : list byte :=
  let fourcc_str :=
    [ static_cast_char (decode_expr fourcc is_big_endian 0);
      static_cast_char (decode_expr fourcc is_big_endian 1);
      static_cast_char (decode_expr fourcc is_big_endian 2);
      static_cast_char (decode_expr fourcc is_big_endian 3);
      x00 ] in
  string_of_c_str fourcc_str.

(** A text given as a Rocq string, as bytes. *)
Definition text (s : String.string) : list byte := String.list_byte_of_string s.

(** ** [std::size_t] and the byte stream *)

(** [std::numeric_limits<std::size_t>::max()], for the 64-bit [std::size_t]. *)
Definition size_t_max : N := (2 ^ 64 - 1)%N.

(** Conversion to [std::size_t]. *)
Definition to_size_t (n : N) : N := (n mod 2 ^ 64)%N.

(** Multiplication on [std::size_t]. *)
Definition size_t_mul (a b : N) : N := to_size_t (a * b).

(** Conversion of a [std::size_t] to the [std::uint32_t] of a stored offset. *)
Definition offset_of_size (n : N) : N := (n mod 2 ^ 32)%N.

(** Modelled from the spec: [IO::ByteBuffer], whose header [IO/ByteBuffer.hpp]
    is not among the sources.  The spec has it as the byte stream the chunks
    consume: a read of [n] raw bytes at a cursor, which advances, and an append
    of raw bytes; a request past the end violates the contract ([None]). *)
Record ByteBuffer : Set := { buf_bytes : list byte; buf_pos : nat }.

(** Modelled from the spec: the bytes from the cursor on. *)
Definition buf_remaining (buf : ByteBuffer) : list byte :=
  skipn (buf_pos buf) (buf_bytes buf).

(** Modelled from the spec: the read of [n] raw bytes at the cursor. *)
Definition buf_read (n : nat) (buf : ByteBuffer) : option (list byte * ByteBuffer) :=
  if (n <=? length (buf_remaining buf))%nat
  then Some (firstn n (buf_remaining buf),
             {| buf_bytes := buf_bytes buf; buf_pos := buf_pos buf + n |})
  else None.

(** Modelled from the spec: the append of raw bytes. *)
Definition buf_write (bs : list byte) (buf : ByteBuffer) : ByteBuffer :=
  {| buf_bytes := buf_bytes buf ++ bs; buf_pos := buf_pos buf |}.


(** Sequencing of steps that may violate a contract. *)
Definition bind {A B : Type} (m : option A) (f : A -> option B) : option B :=
  match m with
  | Some a => f a
  | None => None
  end.

Notation "x <- m ;; k" := (bind m (fun x => k))
  (at level 61, m at next level, right associativity).
Notation "' pat <- m ;; k" := (bind m (fun x => match x with pat => k end))
  (at level 61, pat pattern, m at next level, right associativity).

(** The contract checks ([Require], [RequireF]) of the debug build. *)
Definition require (b : bool) : option unit := if b then Some tt else None.

(** ** Plain data records

    [Utils::Meta::Concepts::PODType] is declared outside this header.  What a
    chunk uses of a record type [T] is [sizeof(T)], value-initialisation [T{}]
    and the object representation, which the byte stream copies in and out. *)
Class PODType (T : Type) : Type := {
  sizeof : nat;
  value_init : T;
  to_bytes : T -> list byte;
  from_bytes : list byte -> T
}.

(** A record is its object representation: [sizeof(T)] bytes, [sizeof(T) > 0],
    every one of which a copy preserves. *)
Record PODLaws (T : Type) `{PODType T} : Prop := {
  sizeof_pos : (0 < sizeof)%nat;
  to_bytes_length : forall x : T, length (to_bytes x) = sizeof;
  to_from_bytes : forall bs, length bs = sizeof -> to_bytes (from_bytes bs) = bs
}.

(** [std::uint32_t] on a little-endian target: a value below 2^32, its object
    representation the four bytes from the least significant one. *)
Definition uint32_t : Set := N.

(** The byte with the low eight bits of [n]. *)
Definition byte_of_N (n : N) : byte :=
  match Byte.of_N (n mod 256) with
  | Some b => b
  | None => x00
  end.

Definition uint32_to_bytes (x : uint32_t) : list byte :=
  [ byte_of_N x; byte_of_N (x / 2 ^ 8); byte_of_N (x / 2 ^ 16); byte_of_N (x / 2 ^ 24) ]%N.

Definition uint32_from_bytes (bs : list byte) : uint32_t :=
  (Byte.to_N (nth 0 bs x00) + 2 ^ 8 * Byte.to_N (nth 1 bs x00)
   + 2 ^ 16 * Byte.to_N (nth 2 bs x00) + 2 ^ 24 * Byte.to_N (nth 3 bs x00))%N.

#[export] Instance uint32_POD : PODType uint32_t := {|
  sizeof := 4;
  value_init := 0%N;
  to_bytes := uint32_to_bytes;
  from_bytes := uint32_from_bytes
|}.


(** ** DataChunk

    The template parameters [fourcc] and [fourcc_endian] of the three chunk
    templates only give the constant [magic]; no member reads them, and the
    chunks below are not indexed by them. *)

Module DataChunk.
Section DataChunk.
Context {T : Type} `{PODType T}.

Record t : Type := { data : T; _is_initialized : bool }.

(** [DataChunk() = default]: [_is_initialized = false] by its member
    initialiser; [data] is default-initialised and holds whatever was there. *)
Definition default_ctor (indeterminate : T) : t :=
  {| data := indeterminate; _is_initialized := false |}.

Definition ByteSize (c : t) : N := N.of_nat sizeof.

Definition IsInitialized (c : t) : bool := _is_initialized c.

(** Modelled from the spec: the member functions below are defined in
    [IO/Common.inl], which is not among the sources.  [Initialize()] sets the
    value to its default state and marks the chunk initialized. *)
Definition Initialize (c : t) : t :=
  {| data := value_init; _is_initialized := true |}.

(** Modelled from the spec: [Initialize(data_block)] copies the value in and
    marks the chunk initialized. *)
Definition Initialize_with (data_block : T) (c : t) : t :=
  {| data := data_block; _is_initialized := true |}.

(** Modelled from the spec: [Read(buf, size)] requires [size == sizeof(T)],
    copies [size] bytes from the stream into the value and marks the chunk
    initialized. *)
Definition Read (buf : ByteBuffer) (size : N) (c : t) : option (t * ByteBuffer) :=
  _ <- require (size =? N.of_nat sizeof)%N ;;
  '(bs, buf') <- buf_read (N.to_nat size) buf ;;
  Some ({| data := from_bytes bs; _is_initialized := true |}, buf').

(** Modelled from the spec: [Write(buf)] requires [IsInitialized()] and
    appends the raw bytes of the value to the stream. *)
Definition Write (buf : ByteBuffer) (c : t) : option ByteBuffer :=
  _ <- require (IsInitialized c) ;;
  Some (buf_write (to_bytes (data c)) buf).

(** The member calls on a chunk; [OpAssign] is a store through one of the
    conversions to [T&] or [T*], or to the public member [data]. *)
Inductive op : Type :=
| OpInitialize
| OpInitializeWith (data_block : T)
| OpRead (buf : ByteBuffer) (size : N)
| OpWrite (buf : ByteBuffer)
| OpAssign (v : T).

Definition exec (o : op) (c : t) : option t :=
  match o with
  | OpInitialize => Some (Initialize c)
  | OpInitializeWith data_block => Some (Initialize_with data_block c)
  | OpRead buf size => option_map fst (Read buf size c)
  | OpWrite buf => _ <- Write buf c ;; Some c
  | OpAssign v => Some {| data := v; _is_initialized := _is_initialized c |}
  end.

(** [Initialize] or [Read]. *)
Definition initializes (o : op) : bool :=
  match o with
  | OpInitialize | OpInitializeWith _ | OpRead _ _ => true
  | OpWrite _ | OpAssign _ => false
  end.
End DataChunk.
Arguments t T : clear implicits.
Arguments op T : clear implicits.
End DataChunk.

(** ** DataArrayChunk *)

(** [std::array<T, n>]: exactly [n] elements. *)
Record std_array (T : Type) (n : N) : Type := {
  arr_elems : list T;
  arr_size : (N.of_nat (length arr_elems) =? n)%N = true
}.
Arguments arr_elems {T n} _.
Arguments arr_size {T n} _.

(** [std::vector<T>]. *)
Definition std_vector (T : Type) : Type := list T.

(** The two container templates [ArrayImplT] chooses between, as a type
    expression, so that [std::is_same_v] can compare them. *)
Inductive ImplKind : Set :=
| StdArray (n : N)
| StdVector.

(** The container type a type expression denotes. *)
Definition Impl (T : Type) (k : ImplKind) : Type :=
  match k with
  | StdArray n => std_array T n
  | StdVector => std_vector T
  end.

(** [std::is_same_v]. *)
Definition is_same_v (a b : ImplKind) : bool :=
  match a, b with
  | StdArray n, StdArray m => (n =? m)%N
  | StdVector, StdVector => true
  | _, _ => false
  end.

(** [_data.size()]: the template argument of a [std::array], the element
    count of a [std::vector]. *)
Definition impl_size {T : Type} {k : ImplKind} : Impl T k -> N :=
  match k with
  | StdArray n => fun _ => n
  | StdVector => fun v => N.of_nat (length v)
  end.

(** The elements from [begin()] to [end()]. *)
Definition impl_elems {T : Type} {k : ImplKind} : Impl T k -> list T :=
  match k with
  | StdArray n => fun a => arr_elems a
  | StdVector => fun v => v
  end.

(** A [std::array<T, n>] of the elements [l], if there are [n] of them. *)
Definition mk_array {T : Type} (n : N) (l : list T) : option (std_array T n) :=
  match (N.of_nat (length l) =? n)%N as b
        return ((N.of_nat (length l) =? n)%N = b -> option (std_array T n)) with
  | true => fun e => Some {| arr_elems := l; arr_size := e |}
  | false => fun _ => None
  end eq_refl.

(** [n] copies of [x] as a [std::array<T, n>]. *)
Definition array_fill {T : Type} (n : N) (x : T) : std_array T n.
Proof.
  refine {| arr_elems := repeat x (N.to_nat n) |}.
  rewrite repeat_length, N2Nat.id. apply N.eqb_refl.
Defined.

(** The container holding the elements [l]; a [std::array<T, n>] takes exactly
    [n] elements. *)
Definition impl_of_list {T : Type} (k : ImplKind) (l : list T) : option (Impl T k) :=
  match k with
  | StdArray n => mk_array n l
  | StdVector => Some l
  end.

(** The default-initialised container: an empty vector, or an array whose
    elements hold whatever was there. *)
Definition impl_default {T : Type} (k : ImplKind) (indeterminate : T) : Impl T k :=
  match k with
  | StdArray n => array_fill n indeterminate
  | StdVector => []
  end.

(** Under the constraint [requires (std::is_same_v<ArrayImplT_, std::vector<T>>)]
    the container is a vector. *)
Definition as_vector {T : Type} {k : ImplKind}
  : is_same_v k StdVector = true -> Impl T k -> std_vector T :=
  match k with
  | StdArray n => fun e _ => match diff_false_true e with end
  | StdVector => fun _ v => v
  end.

Definition of_vector {T : Type} {k : ImplKind}
  : is_same_v k StdVector = true -> std_vector T -> Impl T k :=
  match k with
  | StdArray n => fun e _ => match diff_false_true e with end
  | StdVector => fun _ v => v
  end.

(** [std::vector::erase] of the element at [index]. *)
Definition erase {A : Type} (index : nat) (v : list A) : list A :=
  firstn index v ++ skipn (S index) v.

(** Assignment to the element at [index] of a container. *)
Fixpoint list_set {A : Type} (index : nat) (x : A) (l : list A) : list A :=
  match l, index with
  | [], _ => []
  | _ :: l', O => x :: l'
  | y :: l', S i => y :: list_set i x l'
  end.

Module DataArrayChunk.
Section DataArrayChunk.
Context {T : Type} `{PODType T}.
Variables size_min size_max : N.

(** [ArrayImplT], as a type expression and as the type it denotes. *)
Definition ArrayImplT_kind : ImplKind :=
  if ((size_max =? size_min) && (size_max <? size_t_max))%N
  then StdArray size_max
  else StdVector.

Definition ArrayImplT : Type := Impl T ArrayImplT_kind.

Record t : Type := { _data : ArrayImplT; _is_initialized : bool }.

(** The implicit default constructor. *)
Definition default_ctor (indeterminate : T) : t :=
  {| _data := impl_default ArrayImplT_kind indeterminate;
     _is_initialized := false |}.

Definition IsInitialized (c : t) : bool := _is_initialized c.

Definition Size (c : t) : N := impl_size (_data c).

Definition ByteSize (c : t) : N :=
  size_t_mul (impl_size (_data c)) (N.of_nat sizeof).

(** The constraints of the member templates [Add], [Remove] (both overloads)
    and [Clear].  The leading parameter pack takes every explicit template
    argument, so [ArrayImplT_] is always [ArrayImplT]. *)
Definition Add_requires : bool := is_same_v ArrayImplT_kind StdVector.
Definition Remove_requires : bool := is_same_v ArrayImplT_kind StdVector.
Definition Clear_requires : bool := is_same_v ArrayImplT_kind StdVector.

(** Modelled from the spec: the member functions below are defined in
    [IO/Common.inl], which is not among the sources.  [Initialize()] leaves
    an empty vector, or an array of value-initialised elements, and marks
    the chunk initialized. *)
Definition Initialize (c : t) : t :=
  {| _data := impl_default ArrayImplT_kind value_init; _is_initialized := true |}.

(** Modelled from the spec: [Initialize(data_block, n)] stores [n] copies;
    for the fixed-capacity form [n] must equal [size_max]. *)
Definition Initialize_n (data_block : T) (n : N) (c : t) : option t :=
  d <- impl_of_list ArrayImplT_kind (repeat data_block (N.to_nat n)) ;;
  Some {| _data := d; _is_initialized := true |}.

(** Modelled from the spec: [Initialize(data_array)] copies an existing
    container of the chunk's own container type. *)
Definition Initialize_array (data_array : ArrayImplT) (c : t) : t :=
  {| _data := data_array; _is_initialized := true |}.

(** Modelled from the spec: elements are read one after the other in their
    native layout. *)
Fixpoint read_elements (count : nat) (buf : ByteBuffer)
  : option (list T * ByteBuffer) :=
  match count with
  | O => Some ([], buf)
  | S count' =>
      '(bs, buf1) <- buf_read sizeof buf ;;
      '(xs, buf2) <- read_elements count' buf1 ;;
      Some (from_bytes bs :: xs, buf2)
  end.

(** Modelled from the spec: [Read(buf, size)]: [size] must be a multiple of
    [sizeof(T)], the element count is [size / sizeof(T)] and, for the
    fixed-capacity form, must equal [size_max]; marks the chunk initialized.
    The debug-only bounds of the growable form are left out: they can only
    refuse a payload. *)
Definition Read (buf : ByteBuffer) (size : N) (c : t) : option (t * ByteBuffer) :=
  _ <- require (size mod N.of_nat sizeof =? 0)%N ;;
  '(xs, buf') <- read_elements (N.to_nat (size / N.of_nat sizeof)) buf ;;
  d <- impl_of_list ArrayImplT_kind xs ;;
  Some ({| _data := d; _is_initialized := true |}, buf').

(** Modelled from the spec: [Write(buf)] emits the elements one after the
    other in storage order. *)
Definition Write (buf : ByteBuffer) (c : t) : ByteBuffer :=
  fold_left (fun b x => buf_write (to_bytes x) b) (impl_elems (_data c)) buf.

(** Modelled from the spec: [Add()] value-initialises a new last element. *)
Definition Add (e : Add_requires = true) (c : t) : t :=
  {| _data := of_vector e (as_vector e (_data c) ++ [value_init]);
     _is_initialized := _is_initialized c |}.

(** Modelled from the spec: [Remove(index)] (or the iterator at that
    position) erases one live element, the later ones move down. *)
Definition Remove (e : Remove_requires = true) (index : nat) (c : t) : option t :=
  _ <- require (index <? length (as_vector e (_data c)))%nat ;;
  Some {| _data := of_vector e (erase index (as_vector e (_data c)));
          _is_initialized := _is_initialized c |}.

(** Modelled from the spec: [Clear()] empties the storage. *)
Definition Clear (e : Clear_requires = true) (c : t) : t :=
  {| _data := of_vector e []; _is_initialized := _is_initialized c |}.

(** Modelled from the spec: [At(index)] and indexing, of a live element. *)
Definition At (index : nat) (c : t) : option T :=
  nth_error (impl_elems (_data c)) index.

(** The member calls on a chunk; [OpAssign] is a store through the reference
    [At] or indexing returns. *)
Inductive op : Type :=
| OpInitialize
| OpInitializeN (data_block : T) (n : N)
| OpInitializeArray (data_array : ArrayImplT)
| OpRead (buf : ByteBuffer) (size : N)
| OpWrite (buf : ByteBuffer)
| OpAdd (e : Add_requires = true)
| OpRemove (e : Remove_requires = true) (index : nat)
| OpClear (e : Clear_requires = true)
| OpAssign (index : nat) (v : T).

Definition exec (o : op) (c : t) : option t :=
  match o with
  | OpInitialize => Some (Initialize c)
  | OpInitializeN data_block n => Initialize_n data_block n c
  | OpInitializeArray data_array => Some (Initialize_array data_array c)
  | OpRead buf size => option_map fst (Read buf size c)
  | OpWrite buf => Some c
  | OpAdd e => Some (Add e c)
  | OpRemove e index => Remove e index c
  | OpClear e => Some (Clear e c)
  | OpAssign index v =>
      _ <- At index c ;;
      d <- impl_of_list ArrayImplT_kind (list_set index v (impl_elems (_data c))) ;;
      Some {| _data := d; _is_initialized := _is_initialized c |}
  end.

(** [Initialize] or [Read]. *)
Definition initializes (o : op) : bool :=
  match o with
  | OpInitialize | OpInitializeN _ _ | OpInitializeArray _ | OpRead _ _ => true
  | _ => false
  end.
End DataArrayChunk.
Arguments t T : clear implicits.
Arguments op T : clear implicits.
Arguments ArrayImplT T : clear implicits.
End DataArrayChunk.

(** ** StringBlockChunk *)

Inductive StringBlockChunkType : Set :=
| NORMAL  (* = 0: simple array of null-terminated strings *)
| OFFSET. (* = 1: offset map of null-terminated strings *)

(** [std::string]. *)
Definition std_string : Set := list byte.

(** [operator==] on [std::string]. *)
Fixpoint string_eqb (a b : std_string) : bool :=
  match a, b with
  | [], [] => true
  | x :: a', y :: b' => Byte.eqb x y && string_eqb a' b'
  | _, _ => false
  end.

(** The encoded length of an entry: its bytes and the terminator. *)
Definition encoded_length (s : std_string) : N := N.of_nat (length s) + 1.

(** Modelled from the spec: splitting a byte block on its null terminators,
    one entry per terminated run.  A trailing unterminated run is not refused
    here (the surrounding reader decides what to do about it) and gives no
    entry. *)
Fixpoint split_nul (bs : list byte) : list std_string :=
  match bs with
  | [] => []
  | b :: bs' =>
      if Byte.eqb b x00
      then [] :: split_nul bs'
      else match split_nul bs' with
           | s :: ss => (b :: s) :: ss
           | [] => []
           end
  end.

(** Modelled from the spec: each entry paired with its byte offset within the
    serialized block, which starts at [start]. *)
Fixpoint assign_offsets (start : N) (ss : list std_string)
  : list (N * std_string) :=
  match ss with
  | [] => []
  | s :: ss' =>
      (offset_of_size start, s) :: assign_offsets (start + encoded_length s) ss'
  end.

(** [size_min] and [size_max] are template parameters of the string block too;
    the header uses them nowhere. *)
Module StringBlockChunk.

(** [ArrayImplT]: [std::vector<std::string>] or
    [std::vector<std::pair<std::uint32_t, std::string>>]. *)
Definition ArrayImplT (type : StringBlockChunkType) : Type :=
  match type with
  | NORMAL => std_vector std_string
  | OFFSET => std_vector (N * std_string)
  end.

(** [_data.size()]. *)
Definition impl_size {type : StringBlockChunkType} : ArrayImplT type -> N :=
  match type with
  | NORMAL => fun v => N.of_nat (length v)
  | OFFSET => fun v => N.of_nat (length v)
  end.

(** The strings of the entries, in storage order. *)
Definition impl_strings {type : StringBlockChunkType}
  : ArrayImplT type -> list std_string :=
  match type with
  | NORMAL => fun v => v
  | OFFSET => fun v => map snd v
  end.

(** The empty vector. *)
Definition impl_empty (type : StringBlockChunkType) : ArrayImplT type :=
  match type with
  | NORMAL => []
  | OFFSET => []
  end.

(** Modelled from the spec: the strings [ss] stored as given, for [OFFSET]
    each with its offset in the block. *)
Definition impl_of_strings (type : StringBlockChunkType) (ss : list std_string)
  : ArrayImplT type :=
  match type with
  | NORMAL => ss
  | OFFSET => assign_offsets 0 ss
  end.

(** Modelled from the spec: the vector after [Add(string)], [byte_size]
    being the chunk's [ByteSize()] before the call.  [NORMAL] appends.
    [OFFSET] scans the entries for the same content and adds nothing when it
    is there; otherwise it appends the string with [byte_size] as its
    offset. *)
Definition impl_add {type : StringBlockChunkType} (byte_size : N)
    (string : std_string) : ArrayImplT type -> ArrayImplT type :=
  match type with
  | NORMAL => fun v => v ++ [string]
  | OFFSET => fun v =>
      if existsb (fun entry => string_eqb (snd entry) string) v
      then v
      else v ++ [(offset_of_size byte_size, string)]
  end.

(** Modelled from the spec: the vector after [Remove(index)].  [OFFSET]
    renumbers every entry that followed the removed one, from the offset the
    removed entry had. *)
Definition impl_remove {type : StringBlockChunkType} (index : nat)
  : ArrayImplT type -> ArrayImplT type :=
  match type with
  | NORMAL => fun v => erase index v
  | OFFSET => fun v =>
      match nth_error v index with
      | Some removed =>
          firstn index v ++ assign_offsets (fst removed) (map snd (skipn (S index) v))
      | None => v
      end
  end.

Section StringBlockChunk.
Variable type : StringBlockChunkType.

Record t : Type := { _is_initialized : bool; _data : ArrayImplT type }.

(** [StringBlockChunk() = default]. *)
Definition default_ctor : t :=
  {| _is_initialized := false; _data := impl_empty type |}.

Definition IsInitialized (c : t) : bool := _is_initialized c.

Definition Size (c : t) : N := impl_size (_data c).

(** Modelled from the spec: the member functions below are defined in
    [IO/Common.inl], which is not among the sources.  [ByteSize()] is the
    sum of the encoded lengths of the entries. *)
Definition ByteSize (c : t) : N :=
  to_size_t (fold_right (fun s n => encoded_length s + n) 0 (impl_strings (_data c)))%N.

(** Modelled from the spec: [Initialize()], an empty block. *)
Definition Initialize (c : t) : t :=
  {| _is_initialized := true; _data := impl_empty type |}.

(** Modelled from the spec: [Initialize(strings)] stores the list as given,
    order and duplicates kept; [OFFSET] assigns offsets by encoding order. *)
Definition Initialize_strings (strings : list std_string) (c : t) : t :=
  {| _is_initialized := true; _data := impl_of_strings type strings |}.

(** Modelled from the spec: [Read(buf, size)] scans [size] bytes and splits
    them on the null terminators; [OFFSET] also records where each entry
    starts. *)
Definition Read (buf : ByteBuffer) (size : N) (c : t) : option (t * ByteBuffer) :=
  '(bs, buf') <- buf_read (N.to_nat size) buf ;;
  Some ({| _is_initialized := true; _data := impl_of_strings type (split_nul bs) |},
        buf').

(** Modelled from the spec: [Write(buf)] emits each entry's bytes followed
    by a null terminator, in storage order. *)
Definition Write (buf : ByteBuffer) (c : t) : ByteBuffer :=
  fold_left (fun b s => buf_write (s ++ [x00]) b) (impl_strings (_data c)) buf.

(** Modelled from the spec: [Add(string)]. *)
Definition Add (string : std_string) (c : t) : t :=
  {| _is_initialized := _is_initialized c;
     _data := impl_add (ByteSize c) string (_data c) |}.

(** Modelled from the spec: [Remove(index)] (or an iterator at that
    position) erases one live entry. *)
Definition Remove (index : nat) (c : t) : option t :=
  _ <- require (N.of_nat index <? Size c)%N ;;
  Some {| _is_initialized := _is_initialized c;
          _data := impl_remove index (_data c) |}.

(** Modelled from the spec: [Clear()] empties the storage. *)
Definition Clear (c : t) : t :=
  {| _is_initialized := _is_initialized c; _data := impl_empty type |}.

(** The member calls on a chunk. *)
Inductive op : Type :=
| OpInitialize
| OpInitializeStrings (strings : list std_string)
| OpRead (buf : ByteBuffer) (size : N)
| OpWrite (buf : ByteBuffer)
| OpAdd (string : std_string)
| OpRemove (index : nat)
| OpClear.

Definition exec (o : op) (c : t) : option t :=
  match o with
  | OpInitialize => Some (Initialize c)
  | OpInitializeStrings strings => Some (Initialize_strings strings c)
  | OpRead buf size => option_map fst (Read buf size c)
  | OpWrite buf => Some c
  | OpAdd string => Some (Add string c)
  | OpRemove index => Remove index c
  | OpClear => Some (Clear c)
  end.

(** [Initialize] or [Read]. *)
Definition initializes (o : op) : bool :=
  match o with
  | OpInitialize | OpInitializeStrings _ | OpRead _ _ => true
  | _ => false
  end.
End StringBlockChunk.
End StringBlockChunk.

(** ** Notions the statements use *)

(** The byte of a 32-bit value at bit position [s]. *)
Definition byte_at (x s : Z) : Z := Z.land (Z.shiftr x s) 255.

(** The bit positions of the four chars of a tag. *)
Definition positions : list Z := [0; 8; 16; 24].

(** A [char] holding the byte [c] is not negative: plain [char] is unsigned,
    or the byte is below 0x80. *)
Definition nonneg_char (char_is_signed : bool) (c : byte) : bool :=
  negb char_is_signed || (byte_val c <? 128).


(** ** Example streams *)



(** The payload of two 4-byte integer records, 7 and 257. *)
Definition pair_stream : ByteBuffer :=
  {| buf_bytes := [x07; x00; x00; x00; x01; x01; x00; x00]; buf_pos := 0 |}.



(** ** Example chunks *)

(** The default instantiation of the array chunk is unconstrained. *)
Definition unconstrained
  : DataArrayChunk.Clear_requires size_t_max size_t_max = true := eq_refl.

(** An initialized, unconstrained array chunk of the records 7 and 257. *)
Definition vector_chunk : DataArrayChunk.t uint32_t size_t_max size_t_max :=
  {| DataArrayChunk._data :=
       ([7%N; 257%N] : DataArrayChunk.ArrayImplT uint32_t size_t_max size_t_max);
     DataArrayChunk._is_initialized := true |}.

(** An initialized offset map of "foo" and "bar". *)
Definition foo_bar_chunk : StringBlockChunk.t OFFSET :=
  StringBlockChunk.Initialize_strings OFFSET [text "foo"; text "bar"]
    (StringBlockChunk.default_ctor OFFSET).

(** A string of 2^32 - 1 chars 'a': with its terminator, 4 GiB. *)
Definition huge_string : std_string := repeat x61 (N.to_nat (2 ^ 32 - 1)).

(** An initialized offset map whose one entry is [huge_string]. *)
Definition huge_chunk : StringBlockChunk.t OFFSET :=
  {| StringBlockChunk._is_initialized := true;
     StringBlockChunk._data := ([(0%N, huge_string)] : StringBlockChunk.ArrayImplT OFFSET) |}.

(** ** Client versions and locales *)

Inductive ClientVersion : Set :=
| CLASSIC | TBC | WOTLK | CATA | MOP | WOD | LEGION | BFA | SL | DF
| CLASSIC_NEW | TBC_NEW | WOTLK_NEW  (* classic era remasters *)
| ANY.

(** The enumerator values of [ClientVersion]. *)
Definition ClientVersion_value (version : ClientVersion) : Z :=
  match version with
  | CLASSIC => 0
  | TBC => 10
  | WOTLK => 20
  | CATA => 30
  | MOP => 40
  | WOD => 50
  | LEGION => 60
  | BFA => 70
  | SL => 80
  | DF => 90
  | CLASSIC_NEW => 71
  | TBC_NEW => 81
  | WOTLK_NEW => 91
  | ANY => 100000
  end.

(** The enumerators the header lists under "Classic era remasters". *)
Definition is_remaster (version : ClientVersion) : bool :=
  match version with
  | CLASSIC_NEW | TBC_NEW | WOTLK_NEW => true
  | _ => false
  end.

(** The retail expansions, [CLASSIC] to [DF]. *)
Definition is_retail (version : ClientVersion) : bool :=
  match version with
  | ANY => false
  | _ => negb (is_remaster version)
  end.

Inductive ClientLocale : Set :=
| enGB | enUS | deDE | koKR | frFR | zhCN | zhTW | esES | esMX | ruRU | AUTO.

(** The enumerator values of [ClientLocale]. *)
Definition ClientLocale_value (locale : ClientLocale) : nat :=
  match locale with
  | enGB => 0
  | enUS => 1
  | deDE => 2
  | koKR => 3
  | frFR => 4
  | zhCN => 5
  | zhTW => 6
  | esES => 7
  | esMX => 8
  | ruRU => 9
  | AUTO => 10
  end.

(** [ClientLocaleStr], a [std::array<std::string_view, 10>]. *)
Definition ClientLocaleStr : list string :=
  [ "enGB"%string; "enUS"%string; "deDE"%string; "koKR"%string; "frFR"%string;
    "zhCN"%string; "zhTW"%string; "esES"%string; "esMX"%string; "ruRU"%string ].

(** [ClientLocaleStr[static_cast<std::size_t>(locale)]]; there is no element
    past the end of the array ([None]). *)
Definition ClientLocaleStr_at (locale : ClientLocale) : option string :=
  nth_error ClientLocaleStr (ClientLocale_value locale).

(** ** Further notions the statements use *)

(** The integer whose four bytes, from the most significant one, are the
    values of [c0], [c1], [c2], [c3]. *)
Definition be_value (c0 c1 c2 c3 : byte) : Z :=
  byte_val c0 * 2 ^ 24 + byte_val c1 * 2 ^ 16 + byte_val c2 * 2 ^ 8 + byte_val c3.

(** The four bytes a [std::uint32_t] of value [n] has in the file, on a
    little-endian target. *)
Definition file_bytes (n : Z) : list byte := uint32_to_bytes (Z.to_N n).

(** * Properties of the tag codec *)

Lemma to_uint32_lor (a b : Z) :
  to_uint32 (Z.lor a b) = Z.lor (to_uint32 a) (to_uint32 b).
Proof.
  unfold to_uint32. rewrite <- !Z.land_ones by lia. apply Z.land_lor_distr_l.
Qed.

Lemma to_uint32_to_int32 (z : Z) : to_uint32 (to_int32 z) = to_uint32 z.
Proof.
  unfold to_uint32, to_int32.
  rewrite Zminus_mod, Zmod_mod, <- Zminus_mod.
  f_equal. lia.
Qed.

Lemma byte_at_lor (a b s : Z) : byte_at (Z.lor a b) s = Z.lor (byte_at a s) (byte_at b s).
Proof. unfold byte_at. rewrite Z.shiftr_lor. apply Z.land_lor_distr_l. Qed.

Lemma byte_at_shifted_all (c : byte) :
  forallb (fun k => forallb (fun s =>
    byte_at (to_uint32 (Z.shiftl (byte_val c) k)) s =? (if k =? s then byte_val c else 0))
    positions) positions = true.
Proof. destruct c; vm_compute; reflexivity. Qed.

Lemma byte_at_shifted (c : byte) (k s : Z) :
  In k positions -> In s positions ->
  byte_at (to_uint32 (Z.shiftl (byte_val c) k)) s = if k =? s then byte_val c else 0.
Proof.
  intros Hk Hs. pose proof (byte_at_shifted_all c) as H.
  rewrite forallb_forall in H. specialize (H k Hk).
  rewrite forallb_forall in H. specialize (H s Hs).
  now apply Z.eqb_eq in H.
Qed.

Lemma char_to_int_nonneg (sgn : bool) (c : byte) :
  nonneg_char sgn c = true -> char_to_int sgn c = byte_val c.
Proof.
  unfold nonneg_char, char_to_int. intros H.
  destruct sgn; simpl in *; [|reflexivity].
  apply Z.ltb_lt in H.
  destruct (128 <=? byte_val c) eqn:E; [apply Z.leb_le in E; lia | reflexivity].
Qed.

Lemma narrow_to_char_nonneg (sgn : bool) (c : byte) :
  nonneg_char sgn c = true -> narrow_to_char sgn (byte_val c) = Some c.
Proof. destruct sgn, c; vm_compute; intros; congruence. Qed.

Lemma FourCC_literal (sgn : bool) (c0 c1 c2 c3 : byte) (rest : list byte)
    (endian : FourCCEndian) :
  FourCC sgn {| value := c0 :: c1 :: c2 :: c3 :: rest |} endian =
  Some (to_uint32
    (if endian_to_bool endian
     then int_or (int_or (int_or (int_shl (char_to_int sgn c3) 24)
                                 (int_shl (char_to_int sgn c2) 16))
                         (int_shl (char_to_int sgn c1) 8))
                 (char_to_int sgn c0)
     else int_or (int_or (int_or (int_shl (char_to_int sgn c0) 24)
                                 (int_shl (char_to_int sgn c1) 16))
                         (int_shl (char_to_int sgn c2) 8))
                 (char_to_int sgn c3))).
Proof. reflexivity. Qed.

(** The packed integer, char by char: the char shifted to position [k] is the
    byte at [k] and leaves the other positions alone. *)
Lemma byte_at_pack (b3 b2 b1 b0 : byte) (s : Z) :
  In s positions ->
  byte_at (to_uint32
    (int_or (int_or (int_or (int_shl (byte_val b3) 24) (int_shl (byte_val b2) 16))
                    (int_shl (byte_val b1) 8))
            (byte_val b0))) s =
  if s =? 24 then byte_val b3
  else if s =? 16 then byte_val b2
  else if s =? 8 then byte_val b1
  else byte_val b0.
Proof.
  intros Hs. unfold int_or, int_shl.
  rewrite !to_uint32_lor, !to_uint32_to_int32, !byte_at_lor.
  rewrite <- (Z.shiftl_0_r (byte_val b0)).
  rewrite !byte_at_shifted by (assumption || (unfold positions; simpl; tauto)).
  unfold positions in Hs. simpl in Hs.
  destruct Hs as [<-|[<-|[<-|[<-|[]]]]]; simpl;
    rewrite ?Z.lor_0_r, ?Z.lor_0_l; reflexivity.
Qed.

Lemma decode_expr_byte_at (x : Z) :
  (decode_expr x true 0 = byte_at x 0 /\ decode_expr x true 1 = byte_at x 8 /\
   decode_expr x true 2 = byte_at x 16 /\ decode_expr x true 3 = byte_at x 24) /\
  (decode_expr x false 0 = byte_at x 24 /\ decode_expr x false 1 = byte_at x 16 /\
   decode_expr x false 2 = byte_at x 8 /\ decode_expr x false 3 = byte_at x 0).
Proof.
  unfold decode_expr, byte_at. rewrite Z.shiftr_0_r. repeat split; reflexivity.
Qed.

(** C1, as the code has it.  For every 4-character string whose chars are not
    negative as plain [char] (every byte where plain [char] is unsigned, the
    bytes 0x00 to 0x7F, non-printable ones included, where it is signed) and
    for both endiannesses, [FourCC] is well-formed and [FourCCStr] of its
    result is the string again: [FourCCStr<FourCC<s, e>, e> == s]. *)
Theorem FourCCStr_FourCC_inverse (char_is_signed : bool) (chars : list byte)
    (endian : FourCCEndian) :
  length chars = 4%nat ->
  Forall (fun c => nonneg_char char_is_signed c = true) chars ->
  (n <- FourCC char_is_signed (literal chars) endian ;;
   FourCCStr char_is_signed n endian) = Some (value (literal chars)).
Proof.
  intros Hlen Hchars.
  destruct chars as [|c0 [|c1 [|c2 [|c3 [|]]]]]; try discriminate.
  inversion_clear Hchars as [|? ? H0 Hc]. inversion_clear Hc as [|? ? H1 Hc'].
  inversion_clear Hc' as [|? ? H2 Hc]. inversion_clear Hc as [|? ? H3 _].
  unfold literal. simpl app. rewrite FourCC_literal.
  rewrite !char_to_int_nonneg by assumption.
  cbn [bind]. unfold FourCCStr.
  destruct (decode_expr_byte_at
    (to_uint32 (if endian_to_bool endian
     then int_or (int_or (int_or (int_shl (byte_val c3) 24) (int_shl (byte_val c2) 16))
                         (int_shl (byte_val c1) 8)) (byte_val c0)
     else int_or (int_or (int_or (int_shl (byte_val c0) 24) (int_shl (byte_val c1) 16))
                         (int_shl (byte_val c2) 8)) (byte_val c3))))
    as [(Eb0 & Eb1 & Eb2 & Eb3) (El0 & El1 & El2 & El3)].
  destruct endian; cbn [endian_to_bool] in *.
  - rewrite El0, El1, El2, El3.
    rewrite !byte_at_pack by (unfold positions; simpl; tauto).
    cbn [Z.eqb Pos.eqb].
    rewrite !narrow_to_char_nonneg by assumption. reflexivity.
  - rewrite Eb0, Eb1, Eb2, Eb3.
    rewrite !byte_at_pack by (unfold positions; simpl; tauto).
    cbn [Z.eqb Pos.eqb].
    rewrite !narrow_to_char_nonneg by assumption. reflexivity.
Qed.

(** The inverse law on the tag "MVER", where plain [char] is signed. *)
Lemma FourCCStr_FourCC_inverse_witness :
  length (text "MVER") = 4%nat /\
  Forall (fun c => nonneg_char true c = true) (text "MVER") /\
  (n <- FourCC true (literal (text "MVER")) LITTLE ;; FourCCStr true n LITTLE)
  = Some (value (literal (text "MVER"))).
Proof.
  assert (Hlen : length (text "MVER") = 4%nat) by reflexivity.
  assert (Hchars : Forall (fun c => nonneg_char true c = true) (text "MVER"))
    by (repeat constructor).
  split; [exact Hlen|]. split; [exact Hchars|].
  exact (FourCCStr_FourCC_inverse true (text "MVER") LITTLE Hlen Hchars).
Defined.

(** C1 as stated fails where plain [char] is signed: the char 0x80 is
    promoted to a negative [int], whose sign bits overwrite the three chars
    above it.  "ABC\x80" and "\xFF\xFF\xFF\x80" encode to the same integer, and
    decoding it does not give "ABC\x80". *)
Lemma signed_char_breaks_inverse_law :
  length [x41; x42; x43; x80] = 4%nat /\
  FourCC true (literal [x41; x42; x43; x80]) LITTLE = Some 0xFFFFFF80 /\
  FourCC true (literal [xff; xff; xff; x80]) LITTLE = Some 0xFFFFFF80 /\
  (n <- FourCC true (literal [x41; x42; x43; x80]) LITTLE ;; FourCCStr true n LITTLE)
  <> Some (value (literal [x41; x42; x43; x80])).
Proof. repeat split; vm_compute; congruence. Qed.

(** C2, as the code has it.  With [LITTLE] the first char of the literal is
    the most significant byte: "REVM" encodes to 0x5245564D.  The integer
    0x4D564552 is "MVER" with [LITTLE], and "REVM" with [BIG]. *)
Theorem FourCC_REVM (char_is_signed : bool) :
  FourCC char_is_signed (literal (text "REVM")) LITTLE = Some 0x5245564D /\
  FourCC char_is_signed (literal (text "MVER")) LITTLE = Some 0x4D564552 /\
  FourCC char_is_signed (literal (text "REVM")) BIG = Some 0x4D564552.
Proof. destruct char_is_signed; repeat split; reflexivity. Qed.

(** C2 as stated fails: [FourCC<"REVM", FourCCEndian::LITTLE>] is not
    0x4D564552, whichever the signedness of plain [char]. *)
Lemma FourCC_REVM_LITTLE_is_not_4D564552 :
  FourCC true (literal (text "REVM")) LITTLE <> Some 0x4D564552 /\
  FourCC false (literal (text "REVM")) LITTLE <> Some 0x4D564552.
Proof. split; vm_compute; congruence. Qed.

Lemma narrow_to_char_static_cast (sgn : bool) (v : Z) (c : byte) :
  narrow_to_char sgn v = Some c -> static_cast_char v = c.
Proof.
  unfold narrow_to_char, static_cast_char.
  destruct (sgn && (127 <? v)); congruence.
Qed.

Lemma eqb_x00_false (c : byte) : c <> x00 -> Byte.eqb c x00 = false.
Proof.
  intros Hc. destruct (Byte.eqb c x00) eqn:E; [|reflexivity].
  apply byte_dec_bl in E. contradiction.
Qed.

(** Where plain [char] is unsigned no initialiser of [FourCCStr] narrows. *)
Lemma FourCCStr_unsigned_char_total (fourcc_int : Z) (endian : FourCCEndian) :
  FourCCStr false fourcc_int endian <> None.
Proof. unfold FourCCStr, narrow_to_char. cbn [andb]. discriminate. Qed.

(** C10, as the code has it.  For every integer and both endiannesses for
    which [FourCCStr<fourcc, endian>] is well-formed, [FourCCToStr(fourcc,
    is_big_endian)] with the corresponding flag is the array of [FourCCStr]
    read as a NUL-terminated string: its chars before the first zero byte.
    It is the same 4-character text when none of the four chars is zero. *)
Theorem FourCCToStr_FourCCStr (char_is_signed : bool) (fourcc : Z)
    (endian : FourCCEndian) (chars : list byte) :
  FourCCStr char_is_signed fourcc endian = Some chars ->
  FourCCToStr fourcc (endian_to_bool endian) = string_of_c_str chars /\
  (Forall (fun c => c <> x00) (firstn 4 chars) ->
   chars = FourCCToStr fourcc (endian_to_bool endian) ++ [x00]).
Proof.
  unfold FourCCStr, FourCCToStr. intros H.
  destruct (narrow_to_char _ (decode_expr _ _ 0)) as [c0|] eqn:E0; try discriminate.
  destruct (narrow_to_char _ (decode_expr _ _ 1)) as [c1|] eqn:E1; try discriminate.
  destruct (narrow_to_char _ (decode_expr _ _ 2)) as [c2|] eqn:E2; try discriminate.
  destruct (narrow_to_char _ (decode_expr _ _ 3)) as [c3|] eqn:E3; try discriminate.
  apply narrow_to_char_static_cast in E0, E1, E2, E3.
  rewrite E0, E1, E2, E3. injection H as <-.
  split; [reflexivity|].
  cbn [firstn]. intros Hnz.
  inversion_clear Hnz as [|? ? H0 Hc]. inversion_clear Hc as [|? ? H1 Hc'].
  inversion_clear Hc' as [|? ? H2 Hc]. inversion_clear Hc as [|? ? H3 _].
  cbn [string_of_c_str].
  rewrite !eqb_x00_false by assumption. reflexivity.
Qed.

(** The two decoders on the tag of "MVER". *)
Lemma FourCCToStr_FourCCStr_witness :
  FourCCStr true 0x4D564552 LITTLE = Some (text "MVER" ++ [x00]) /\
  FourCCToStr 0x4D564552 false = text "MVER".
Proof.
  assert (H : FourCCStr true 0x4D564552 LITTLE = Some (text "MVER" ++ [x00]))
    by reflexivity.
  split; [exact H|].
  exact (proj1 (FourCCToStr_FourCCStr true 0x4D564552 LITTLE _ H)).
Defined.

(** C10 as stated fails on an integer with a zero byte: [FourCCStr] holds the
    four chars 'A', 'B', NUL, 'C', and [FourCCToStr] returns the two-character
    text "AB", the construction of the [std::string] stopping at the NUL. *)
Lemma FourCCToStr_stops_at_zero_byte :
  FourCCStr false 0x41420043 LITTLE = Some [x41; x42; x00; x43; x00] /\
  FourCCToStr 0x41420043 false = [x41; x42] /\
  FourCCStr false 0x41420043 LITTLE
  <> Some (FourCCToStr 0x41420043 false ++ [x00]).
Proof. repeat split; vm_compute; congruence. Qed.

(** * Properties of the byte stream *)


Lemma buf_write_app (a b : list byte) (buf : ByteBuffer) :
  buf_write b (buf_write a buf) = buf_write (a ++ b) buf.
Proof. unfold buf_write. simpl. now rewrite app_assoc. Qed.

Lemma buf_write_nil (buf : ByteBuffer) : buf_write [] buf = buf.
Proof. destruct buf. unfold buf_write. simpl. now rewrite app_nil_r. Qed.

(** Writing the items of a list one after the other appends their
    concatenation. *)
Lemma fold_buf_write {A : Type} (f : A -> list byte) (l : list A) (buf : ByteBuffer) :
  fold_left (fun b x => buf_write (f x) b) l buf = buf_write (concat (map f l)) buf.
Proof.
  revert buf. induction l as [|x l IH]; intros buf; simpl.
  - symmetry. apply buf_write_nil.
  - rewrite IH. apply buf_write_app.
Qed.


(** * Properties of the containers *)


Lemma impl_size_elems {T : Type} (k : ImplKind) (d : Impl T k) :
  impl_size d = N.of_nat (length (impl_elems d)).
Proof.
  destruct k as [n|]; simpl; [|reflexivity].
  symmetry. apply N.eqb_eq. apply arr_size.
Qed.

Lemma of_vector_elems {T : Type} (k : ImplKind) (e : is_same_v k StdVector = true)
    (v : std_vector T) :
  impl_elems (of_vector e v) = v.
Proof. destruct k; [discriminate e | reflexivity]. Qed.

(** * Reading and writing *)

Section ReadWrite.
Context {T : Type} `{PODType T} (laws : PODLaws T).






End ReadWrite.

(** * The string block *)








(** * [std::uint32_t] is a plain data record *)

Lemma byte_of_N_low (a : byte) (q : N) : byte_of_N (Byte.to_N a + 256 * q) = a.
Proof.
  unfold byte_of_N.
  pose proof (Byte.to_N_bounded a) as Ha.
  rewrite <- (N.mod_unique (Byte.to_N a + 256 * q) 256 q (Byte.to_N a)) by lia.
  now rewrite Byte.of_to_N.
Qed.

Lemma uint32_laws : PODLaws uint32_t.
Proof.
  split.
  - simpl. lia.
  - reflexivity.
  - intros bs Hlen. simpl in Hlen.
    destruct bs as [|a [|b [|c [|d [|]]]]]; try discriminate.
    unfold to_bytes, from_bytes, uint32_POD, uint32_to_bytes, uint32_from_bytes.
    cbn [nth].
    pose proof (Byte.to_N_bounded a) as Ha. pose proof (Byte.to_N_bounded b) as Hb.
    pose proof (Byte.to_N_bounded c) as Hc. pose proof (Byte.to_N_bounded d) as Hd.
    change (2 ^ 8)%N with 256%N. change (2 ^ 16)%N with 65536%N.
    change (2 ^ 24)%N with 16777216%N.
    set (x := (Byte.to_N a + 256 * Byte.to_N b + 65536 * Byte.to_N c
               + 16777216 * Byte.to_N d)%N).
    assert (E1 : (x / 256 = Byte.to_N b + 256 * (Byte.to_N c + 256 * Byte.to_N d))%N).
    { symmetry. apply (N.div_unique x 256 _ (Byte.to_N a)); subst x; lia. }
    assert (E2 : (x / 65536 = Byte.to_N c + 256 * Byte.to_N d)%N).
    { symmetry.
      apply (N.div_unique x 65536 _ (Byte.to_N a + 256 * Byte.to_N b)); subst x; lia. }
    assert (E3 : (x / 16777216 = Byte.to_N d + 256 * 0)%N).
    { symmetry.
      apply (N.div_unique x 16777216 _
               (Byte.to_N a + 256 * Byte.to_N b + 65536 * Byte.to_N c)); subst x; lia. }
    rewrite E1, E2, E3, !byte_of_N_low.
    replace x with (Byte.to_N a + 256 * (Byte.to_N b + 256 * Byte.to_N c
                                          + 65536 * Byte.to_N d))%N by (subst x; lia).
    now rewrite byte_of_N_low.
Qed.


(** * Storage of the array chunk *)

Lemma ArrayImplT_kind_fixed (size_min size_max : N) :
  size_min = size_max -> (size_max < size_t_max)%N ->
  DataArrayChunk.ArrayImplT_kind size_min size_max = StdArray size_max.
Proof.
  intros -> Hlt. unfold DataArrayChunk.ArrayImplT_kind.
  rewrite N.eqb_refl. apply N.ltb_lt in Hlt. now rewrite Hlt.
Qed.

Lemma ArrayImplT_kind_growable (size_min size_max : N) :
  ~ (size_min = size_max /\ (size_max < size_t_max)%N) ->
  DataArrayChunk.ArrayImplT_kind size_min size_max = StdVector.
Proof.
  intros Hn. unfold DataArrayChunk.ArrayImplT_kind.
  destruct (size_max =? size_min)%N eqn:E1; [|reflexivity].
  destruct (size_max <? size_t_max)%N eqn:E2; [|reflexivity].
  apply N.eqb_eq in E1. apply N.ltb_lt in E2. exfalso. apply Hn. now split.
Qed.

Lemma impl_size_array {T : Type} (k : ImplKind) (n : N) (d : Impl T k) :
  k = StdArray n -> impl_size d = n.
Proof. intros ->. reflexivity. Qed.

(** C4.  When [size_min == size_max] and both are below the maximum of
    [std::size_t], [ArrayImplT] is [std::array<T, size_max>]: every chunk,
    initialized or not, has exactly [size_max] slots and [Size() ==
    size_max].  Otherwise [ArrayImplT] is [std::vector<T>], whose [Size()] is
    its current element count. *)
Theorem ArrayImplT_selection (T : Type) (size_min size_max : N) :
  (size_min = size_max /\ (size_max < size_t_max)%N ->
   DataArrayChunk.ArrayImplT_kind size_min size_max = StdArray size_max /\
   DataArrayChunk.ArrayImplT T size_min size_max = std_array T size_max /\
   forall c : DataArrayChunk.t T size_min size_max,
     N.of_nat (length (impl_elems (DataArrayChunk._data size_min size_max c))) = size_max /\
     DataArrayChunk.Size size_min size_max c = size_max) /\
  (~ (size_min = size_max /\ (size_max < size_t_max)%N) ->
   DataArrayChunk.ArrayImplT_kind size_min size_max = StdVector /\
   DataArrayChunk.ArrayImplT T size_min size_max = std_vector T /\
   forall c : DataArrayChunk.t T size_min size_max,
     DataArrayChunk.Size size_min size_max c
     = N.of_nat (length (impl_elems (DataArrayChunk._data size_min size_max c)))).
Proof.
  split.
  - intros [Heq Hlt].
    pose proof (ArrayImplT_kind_fixed _ _ Heq Hlt) as Hk.
    split; [exact Hk|]. split.
    + unfold DataArrayChunk.ArrayImplT. now rewrite Hk.
    + intros c. unfold DataArrayChunk.Size.
      rewrite <- impl_size_elems. split; now apply impl_size_array.
  - intros Hn. pose proof (ArrayImplT_kind_growable _ _ Hn) as Hk.
    split; [exact Hk|]. split.
    + unfold DataArrayChunk.ArrayImplT. now rewrite Hk.
    + intros c. apply impl_size_elems.
Qed.

(** A chunk of exactly two elements, before and after a read. *)
Lemma ArrayImplT_selection_witness :
  (2 = 2 /\ 2 < size_t_max)%N /\
  DataArrayChunk.Size 2 2 (DataArrayChunk.default_ctor (T := uint32_t) 2 2 0%N) = 2%N /\
  forall c buf', DataArrayChunk.Read 2 2 pair_stream 8 (DataArrayChunk.default_ctor 2 2 0%N)
                 = Some (c, buf') ->
                 DataArrayChunk.Size 2 2 c = 2%N.
Proof.
  assert (H : (2 = 2 /\ 2 < size_t_max)%N) by (split; reflexivity).
  split; [exact H|].
  destruct (proj1 (ArrayImplT_selection uint32_t 2 2) H) as (_ & _ & Hsize).
  split; [apply Hsize | intros c buf' _; apply Hsize].
Defined.

(** C6.  [Add], both overloads of [Remove], and [Clear] are constrained by
    [std::is_same_v<ArrayImplT_, std::vector<T>>].  On a fixed-capacity
    instantiation the constraint is false, so no call to them is well-formed;
    on every other instantiation it holds.  The members take the satisfied
    constraint as an argument and check nothing of the storage kind at run
    time. *)
Theorem growable_only_members (size_min size_max : N) :
  (size_min = size_max /\ (size_max < size_t_max)%N ->
   DataArrayChunk.Add_requires size_min size_max = false /\
   DataArrayChunk.Remove_requires size_min size_max = false /\
   DataArrayChunk.Clear_requires size_min size_max = false) /\
  (~ (size_min = size_max /\ (size_max < size_t_max)%N) ->
   DataArrayChunk.Add_requires size_min size_max = true /\
   DataArrayChunk.Remove_requires size_min size_max = true /\
   DataArrayChunk.Clear_requires size_min size_max = true).
Proof.
  unfold DataArrayChunk.Add_requires, DataArrayChunk.Remove_requires,
    DataArrayChunk.Clear_requires.
  split.
  - intros [Heq Hlt]. rewrite (ArrayImplT_kind_fixed _ _ Heq Hlt). now repeat split.
  - intros Hn. rewrite (ArrayImplT_kind_growable _ _ Hn). now repeat split.
Qed.

(** The constraint on [DataArrayChunk<T, fourcc, endian, 2, 2>] and on the
    default, unconstrained instantiation. *)
Lemma growable_only_members_witness :
  DataArrayChunk.Add_requires 2 2 = false /\
  DataArrayChunk.Clear_requires size_t_max size_t_max = true.
Proof.
  split.
  - apply (proj1 (growable_only_members 2 2)). split; reflexivity.
  - apply (proj2 (growable_only_members size_t_max size_t_max)).
    intros [_ H]. discriminate H.
Defined.

(** * Sizes of the array chunk *)

Lemma length_concat_to_bytes {T : Type} `{PODType T} (laws : PODLaws T) (l : list T) :
  length (concat (map to_bytes l)) = (length l * sizeof)%nat.
Proof.
  induction l as [|x l IH]; simpl; [reflexivity|].
  now rewrite length_app, IH, (to_bytes_length T laws).
Qed.

(** [Write] lays the object representations of the elements out one after
    the other, nothing between them. *)
Lemma DataArrayChunk_Write_layout {T : Type} `{PODType T} (size_min size_max : N)
    (out : ByteBuffer) (c : DataArrayChunk.t T size_min size_max) :
  DataArrayChunk.Write size_min size_max out c
  = buf_write (concat (map to_bytes (impl_elems (DataArrayChunk._data size_min size_max c)))) out.
Proof. unfold DataArrayChunk.Write. apply fold_buf_write. Qed.

(** C7.  For every array chunk [ByteSize()] is [Size()] multiplied by
    [sizeof(T)], the product being that of [std::size_t].  The storage of a
    chunk in memory fits the address space; the product is then the exact
    one, and it is the number of bytes of the elements laid out one after the
    other. *)
Theorem ByteSize_is_Size_times_sizeof (T : Type) (pod : PODType T)
    (size_min size_max : N) (c : DataArrayChunk.t T size_min size_max) :
  DataArrayChunk.ByteSize size_min size_max c
  = size_t_mul (DataArrayChunk.Size size_min size_max c) (N.of_nat sizeof) /\
  (PODLaws T ->
   (DataArrayChunk.Size size_min size_max c * N.of_nat sizeof < 2 ^ 64)%N ->
   DataArrayChunk.ByteSize size_min size_max c
   = (DataArrayChunk.Size size_min size_max c * N.of_nat sizeof)%N /\
   N.of_nat (length (concat (map to_bytes
              (impl_elems (DataArrayChunk._data size_min size_max c)))))
   = DataArrayChunk.ByteSize size_min size_max c).
Proof.
  split; [reflexivity|].
  intros laws Hfits.
  assert (E : DataArrayChunk.ByteSize size_min size_max c
              = (DataArrayChunk.Size size_min size_max c * N.of_nat sizeof)%N).
  { unfold DataArrayChunk.ByteSize, size_t_mul, to_size_t.
    apply N.mod_small. exact Hfits. }
  split; [exact E|].
  rewrite E. unfold DataArrayChunk.Size.
  rewrite impl_size_elems, (length_concat_to_bytes laws). lia.
Qed.

(** Two 4-byte records: eight bytes. *)
Lemma ByteSize_is_Size_times_sizeof_witness :
  DataArrayChunk.ByteSize (T := uint32_t) 2 2 (DataArrayChunk.default_ctor 2 2 0%N) = 8%N /\
  DataArrayChunk.Size (T := uint32_t) 2 2 (DataArrayChunk.default_ctor 2 2 0%N) = 2%N.
Proof.
  split; [|reflexivity].
  refine (eq_trans (proj1 (proj2 (ByteSize_is_Size_times_sizeof uint32_t _ 2 2
            (DataArrayChunk.default_ctor 2 2 0%N)) uint32_laws _)) _);
    reflexivity.
Defined.

(** * [Add] on the offset map *)

Lemma string_eqb_eq (a b : std_string) : string_eqb a b = true <-> a = b.
Proof.
  revert b. induction a as [|x a IH]; intros [|y b]; simpl; split;
    try discriminate; try reflexivity.
  - intros E. apply andb_true_iff in E. destruct E as [Exy Eab].
    apply byte_dec_bl in Exy. apply IH in Eab. now subst.
  - intros E. injection E as -> ->. apply andb_true_iff. split.
    + now apply byte_dec_lb.
    + now apply IH.
Qed.

Lemma existsb_string_eqb (string : std_string) (v : list (N * std_string)) :
  existsb (fun entry => string_eqb (snd entry) string) v = true
  <-> In string (map snd v).
Proof.
  rewrite existsb_exists, in_map_iff. split.
  - intros (entry & Hin & E). apply string_eqb_eq in E. now exists entry.
  - intros (entry & E & Hin). exists entry. split; [assumption|].
    now apply string_eqb_eq.
Qed.

(** C5, as the entry type has it.  [Add(string)] on the [OFFSET] variant:
    when an entry with the same bytes is stored, the chunk is left as it is,
    [Size()] with it; otherwise the string is appended as the last entry,
    [Size()] grows by one, and the offset assigned to the entry is
    [ByteSize()] before the call converted to the entry's [std::uint32_t]:
    [ByteSize()] modulo 2^32, which is [ByteSize()] itself below 2^32.
    [Add("foo")] twice gives one entry; [Add("foo")] then [Add("bar")] gives
    two, the second at offset [len("foo") + 1]. *)
Theorem OFFSET_Add_deduplicates (c : StringBlockChunk.t OFFSET) (string : std_string) :
  (In string (StringBlockChunk.impl_strings (StringBlockChunk._data OFFSET c)) ->
   StringBlockChunk.Add OFFSET string c = c /\
   StringBlockChunk.Size OFFSET (StringBlockChunk.Add OFFSET string c)
   = StringBlockChunk.Size OFFSET c) /\
  (~ In string (StringBlockChunk.impl_strings (StringBlockChunk._data OFFSET c)) ->
   StringBlockChunk._data OFFSET (StringBlockChunk.Add OFFSET string c)
   = StringBlockChunk._data OFFSET c
     ++ [(offset_of_size (StringBlockChunk.ByteSize OFFSET c), string)] /\
   StringBlockChunk.Size OFFSET (StringBlockChunk.Add OFFSET string c)
   = (StringBlockChunk.Size OFFSET c + 1)%N /\
   ((StringBlockChunk.ByteSize OFFSET c < 2 ^ 32)%N ->
    offset_of_size (StringBlockChunk.ByteSize OFFSET c)
    = StringBlockChunk.ByteSize OFFSET c)) /\
  (let empty := StringBlockChunk.Initialize OFFSET (StringBlockChunk.default_ctor OFFSET) in
   StringBlockChunk.Size OFFSET
     (StringBlockChunk.Add OFFSET (text "foo") (StringBlockChunk.Add OFFSET (text "foo") empty))
   = 1%N /\
   StringBlockChunk._data OFFSET
     (StringBlockChunk.Add OFFSET (text "bar") (StringBlockChunk.Add OFFSET (text "foo") empty))
   = [(0%N, text "foo"); ((N.of_nat (length (text "foo")) + 1)%N, text "bar")]).
Proof.
  split; [|split].
  - intros Hin. simpl in Hin. apply existsb_string_eqb in Hin.
    assert (E : StringBlockChunk.Add OFFSET string c = c).
    { destruct c as [flag d]. unfold StringBlockChunk.Add. simpl in *.
      now rewrite Hin. }
    split; [exact E | now rewrite E].
  - intros Hnin. simpl in Hnin.
    assert (E : existsb (fun entry => string_eqb (snd entry) string)
                  (StringBlockChunk._data OFFSET c) = false).
    { destruct (existsb _ _) eqn:E; [|reflexivity].
      apply existsb_string_eqb in E. contradiction. }
    assert (Ed : StringBlockChunk._data OFFSET (StringBlockChunk.Add OFFSET string c)
                 = StringBlockChunk._data OFFSET c
                   ++ [(offset_of_size (StringBlockChunk.ByteSize OFFSET c), string)]).
    { unfold StringBlockChunk.Add. simpl. now rewrite E. }
    split; [exact Ed|]. split.
    + unfold StringBlockChunk.Size. rewrite Ed. simpl.
      rewrite length_app. simpl. lia.
    + intros Hlt. unfold offset_of_size. now apply N.mod_small.
  - split; reflexivity.
Qed.

(** Adding "bar" to a block that holds "foo", and "foo" once more. *)
Lemma OFFSET_Add_deduplicates_witness :
  StringBlockChunk._data OFFSET
    (StringBlockChunk.Add OFFSET (text "bar")
       (StringBlockChunk.Initialize_strings OFFSET [text "foo"]
          (StringBlockChunk.default_ctor OFFSET)))
  = [(0%N, text "foo"); (4%N, text "bar")] /\
  StringBlockChunk.Size OFFSET
    (StringBlockChunk.Add OFFSET (text "foo")
       (StringBlockChunk.Initialize_strings OFFSET [text "foo"]
          (StringBlockChunk.default_ctor OFFSET)))
  = 1%N.
Proof.
  split.
  - refine (eq_trans (proj1 (proj1 (proj2 (OFFSET_Add_deduplicates
      (StringBlockChunk.Initialize_strings OFFSET [text "foo"]
         (StringBlockChunk.default_ctor OFFSET)) (text "bar"))) _)) _).
    + vm_compute. intros [H|[]]. discriminate H.
    + reflexivity.
  - refine (eq_trans (proj2 (proj1 (OFFSET_Add_deduplicates
      (StringBlockChunk.Initialize_strings OFFSET [text "foo"]
         (StringBlockChunk.default_ctor OFFSET)) (text "foo")) _)) _).
    + vm_compute. left. reflexivity.
    + reflexivity.
Defined.

(** On a block of one entry of 2^32 - 1 chars, 4 GiB with its terminator,
    the 32-bit offset of the next entry wraps to 0. *)
Lemma Add_offset_wraps (s string : std_string) :
  N.of_nat (length s) = (2 ^ 32 - 1)%N -> string <> s ->
  let c := {| StringBlockChunk._is_initialized := true;
              StringBlockChunk._data := ([(0%N, s)] : StringBlockChunk.ArrayImplT OFFSET) |} in
  ~ In string (StringBlockChunk.impl_strings (StringBlockChunk._data OFFSET c)) /\
  StringBlockChunk.ByteSize OFFSET c = (2 ^ 32)%N /\
  StringBlockChunk._data OFFSET (StringBlockChunk.Add OFFSET string c)
  = StringBlockChunk._data OFFSET c ++ [(0%N, string)] /\
  StringBlockChunk._data OFFSET (StringBlockChunk.Add OFFSET string c)
  <> StringBlockChunk._data OFFSET c
     ++ [(StringBlockChunk.ByteSize OFFSET c, string)].
Proof.
  intros Hlen Hneq c.
  assert (Hsize : StringBlockChunk.ByteSize OFFSET c = (2 ^ 32)%N).
  { unfold StringBlockChunk.ByteSize, c.
    cbn [StringBlockChunk._data StringBlockChunk.impl_strings map snd fold_right].
    unfold encoded_length. rewrite Hlen. reflexivity. }
  assert (Hdata : StringBlockChunk._data OFFSET (StringBlockChunk.Add OFFSET string c)
                  = StringBlockChunk._data OFFSET c ++ [(0%N, string)]).
  { unfold StringBlockChunk.Add. rewrite Hsize. unfold c.
    cbn [StringBlockChunk._data StringBlockChunk.impl_add existsb snd app].
    destruct (string_eqb s string) eqn:E; [|reflexivity].
    apply string_eqb_eq in E. congruence. }
  split; [|split; [exact Hsize|split; [exact Hdata|]]].
  - unfold c. cbn [StringBlockChunk._data StringBlockChunk.impl_strings map snd].
    intros [E|[]]. congruence.
  - rewrite Hdata, Hsize. unfold c. cbn [StringBlockChunk._data app].
    intros E. injection E as E. discriminate E.
Qed.

(** C5 as stated fails on a block of 4 GiB: "b" is not stored, [ByteSize()]
    is 2^32, and the entry appended for "b" gets the offset 0. *)
Lemma huge_block_offset_wraps :
  ~ In (text "b") (StringBlockChunk.impl_strings (StringBlockChunk._data OFFSET huge_chunk)) /\
  StringBlockChunk.ByteSize OFFSET huge_chunk = (2 ^ 32)%N /\
  StringBlockChunk._data OFFSET (StringBlockChunk.Add OFFSET (text "b") huge_chunk)
  = StringBlockChunk._data OFFSET huge_chunk ++ [(0%N, text "b")] /\
  StringBlockChunk._data OFFSET (StringBlockChunk.Add OFFSET (text "b") huge_chunk)
  <> StringBlockChunk._data OFFSET huge_chunk
     ++ [(StringBlockChunk.ByteSize OFFSET huge_chunk, text "b")].
Proof.
  assert (Hlen : N.of_nat (length huge_string) = (2 ^ 32 - 1)%N).
  { unfold huge_string. rewrite repeat_length. apply N2Nat.id. }
  assert (Hneq : text "b" <> huge_string).
  { intros E. apply (f_equal (fun s => N.of_nat (length s))) in E.
    rewrite Hlen in E. discriminate E. }
  exact (Add_offset_wraps huge_string (text "b") Hlen Hneq).
Qed.

(** * The initialized flag *)











(** * [Clear] *)

Lemma impl_size_of_vector_nil {T : Type} (k : ImplKind)
    (e : is_same_v k StdVector = true) :
  impl_size (of_vector (T := T) e []) = 0%N.
Proof. destruct k; [discriminate e | reflexivity]. Qed.

(** C9.  [Clear()] on an initialized growable array chunk or string-block
    chunk leaves the storage empty, so [Size()] and [ByteSize()] are 0, and
    [IsInitialized()] true; storage and flag are all the state a chunk has. *)
Theorem Clear_empties_and_stays_initialized :
  (forall (T : Type) (pod : PODType T) (size_min size_max : N)
          (e : DataArrayChunk.Clear_requires size_min size_max = true)
          (c : DataArrayChunk.t T size_min size_max),
     DataArrayChunk.IsInitialized size_min size_max c = true ->
     impl_elems (DataArrayChunk._data size_min size_max
                   (DataArrayChunk.Clear size_min size_max e c)) = [] /\
     DataArrayChunk.Size size_min size_max (DataArrayChunk.Clear size_min size_max e c) = 0%N /\
     DataArrayChunk.ByteSize size_min size_max (DataArrayChunk.Clear size_min size_max e c) = 0%N /\
     DataArrayChunk.IsInitialized size_min size_max
       (DataArrayChunk.Clear size_min size_max e c) = true) /\
  (forall (type : StringBlockChunkType) (c : StringBlockChunk.t type),
     StringBlockChunk.IsInitialized type c = true ->
     StringBlockChunk.impl_strings
       (StringBlockChunk._data type (StringBlockChunk.Clear type c)) = [] /\
     StringBlockChunk.Size type (StringBlockChunk.Clear type c) = 0%N /\
     StringBlockChunk.ByteSize type (StringBlockChunk.Clear type c) = 0%N /\
     StringBlockChunk.IsInitialized type (StringBlockChunk.Clear type c) = true).
Proof.
  split.
  - intros T pod size_min size_max e c Hinit.
    unfold DataArrayChunk.Size, DataArrayChunk.ByteSize, DataArrayChunk.Clear. simpl.
    rewrite of_vector_elems, impl_size_of_vector_nil.
    repeat split. exact Hinit.
  - intros type c Hinit.
    unfold StringBlockChunk.Size, StringBlockChunk.ByteSize, StringBlockChunk.Clear.
    simpl. destruct type; simpl; repeat split; exact Hinit.
Qed.

(** Clearing an unconstrained array chunk of two records, and an offset map
    of "foo" and "bar". *)
Lemma Clear_empties_and_stays_initialized_witness :
  (DataArrayChunk.IsInitialized size_t_max size_t_max vector_chunk = true /\
   DataArrayChunk.Size size_t_max size_t_max vector_chunk = 2%N /\
   DataArrayChunk.Size size_t_max size_t_max
     (DataArrayChunk.Clear size_t_max size_t_max unconstrained vector_chunk) = 0%N /\
   DataArrayChunk.IsInitialized size_t_max size_t_max
     (DataArrayChunk.Clear size_t_max size_t_max unconstrained vector_chunk) = true) /\
  (StringBlockChunk.IsInitialized OFFSET foo_bar_chunk = true /\
   StringBlockChunk.Size OFFSET foo_bar_chunk = 2%N /\
   StringBlockChunk.Size OFFSET (StringBlockChunk.Clear OFFSET foo_bar_chunk) = 0%N /\
   StringBlockChunk.IsInitialized OFFSET (StringBlockChunk.Clear OFFSET foo_bar_chunk)
   = true).
Proof.
  destruct Clear_empties_and_stays_initialized as (Harray & Hstring).
  split.
  - destruct (Harray uint32_t _ size_t_max size_t_max unconstrained vector_chunk eq_refl)
      as (_ & Hsize & _ & Hinit).
    split; [reflexivity|]. split; [reflexivity|]. split; [exact Hsize | exact Hinit].
  - destruct (Hstring OFFSET foo_bar_chunk eq_refl) as (_ & Hsize & _ & Hinit).
    split; [reflexivity|]. split; [reflexivity|]. split; [exact Hsize | exact Hinit].
Defined.

(** * Further properties of the tag codec *)

Lemma byte_at_range (x s : Z) : 0 <= byte_at x s <= 255.
Proof.
  unfold byte_at.
  change (Z.land (Z.shiftr x s) 255) with (Z.land (Z.shiftr x s) (Z.ones 8)).
  rewrite Z.land_ones by lia. change (2 ^ 8) with 256.
  pose proof (Z.mod_pos_bound (Z.shiftr x s) 256). lia.
Qed.

Lemma base256_digits (x : Z) :
  0 <= x < 4294967296 ->
  x = x mod 256 + 256 * ((x / 256) mod 256) + 256 * 256 * ((x / 256 / 256) mod 256)
      + 256 * 256 * 256 * ((x / 256 / 256 / 256) mod 256).
Proof.
  intros Hx.
  pose proof (Z.div_mod x 256 ltac:(lia)) as E0.
  pose proof (Z.div_mod (x / 256) 256 ltac:(lia)) as E1.
  pose proof (Z.div_mod (x / 256 / 256) 256 ltac:(lia)) as E2.
  pose proof (Z.div_mod (x / 256 / 256 / 256) 256 ltac:(lia)) as E3.
  assert (E4 : x / 256 / 256 / 256 / 256 = 0).
  { rewrite !Z.div_div by lia. apply Z.div_small. lia. }
  rewrite E4 in E3.
  generalize dependent (x mod 256). generalize dependent ((x / 256) mod 256).
  generalize dependent ((x / 256 / 256) mod 256).
  generalize dependent ((x / 256 / 256 / 256) mod 256).
  generalize dependent (x / 256 / 256 / 256). generalize dependent (x / 256 / 256).
  generalize dependent (x / 256).
  intros. lia.
Qed.

(** A 32-bit value is the sum of its four bytes, each at its position. *)
Lemma uint32_bytes_sum (x : Z) :
  0 <= x < 2 ^ 32 ->
  x = byte_at x 0 + 2 ^ 8 * byte_at x 8 + 2 ^ 16 * byte_at x 16 + 2 ^ 24 * byte_at x 24.
Proof.
  intros Hx. unfold byte_at. change 255 with (Z.ones 8).
  rewrite !Z.land_ones, !Z.shiftr_div_pow2 by lia.
  change (2 ^ 0) with 1. change (2 ^ 8) with 256.
  change (2 ^ 16) with (256 * 256). change (2 ^ 24) with (256 * 256 * 256).
  change (2 ^ 32) with 4294967296 in Hx.
  rewrite Z.div_1_r, <- !Z.div_div by lia.
  apply base256_digits, Hx.
Qed.

Lemma uint32_eq_of_bytes (x y : Z) :
  0 <= x < 2 ^ 32 -> 0 <= y < 2 ^ 32 ->
  (forall s, In s positions -> byte_at x s = byte_at y s) -> x = y.
Proof.
  intros Hx Hy Hb.
  rewrite (uint32_bytes_sum x Hx), (uint32_bytes_sum y Hy).
  rewrite !Hb by (unfold positions; simpl; tauto). reflexivity.
Qed.

Lemma byte_val_range (c : byte) : 0 <= byte_val c <= 255.
Proof. unfold byte_val. pose proof (Byte.to_N_bounded c). lia. Qed.

Lemma byte_val_inj (c d : byte) : byte_val c = byte_val d -> c = d.
Proof.
  unfold byte_val. intros E. apply N2Z.inj in E.
  pose proof (Byte.of_to_N c) as Hc. rewrite E, Byte.of_to_N in Hc. congruence.
Qed.

Lemma byte_val_of_Z (v : Z) : 0 <= v <= 255 -> byte_val (byte_of_Z v) = v.
Proof.
  intros Hv. unfold byte_of_Z, byte_val. rewrite Z.mod_small by lia.
  destruct (Byte.of_N (Z.to_N v)) as [b|] eqn:E.
  - apply Byte.to_of_N in E. rewrite E. lia.
  - apply Byte.of_N_None_iff in E. lia.
Qed.

(** The bytes of the encoded tag, where no char is negative: with [LITTLE]
    the first char is the byte at bit 24, with [BIG] the byte at bit 0. *)
Lemma FourCC_bytes (sgn : bool) (c0 c1 c2 c3 : byte) (rest : list byte)
    (endian : FourCCEndian) :
  Forall (fun c => nonneg_char sgn c = true) [c0; c1; c2; c3] ->
  exists n,
    FourCC sgn {| value := c0 :: c1 :: c2 :: c3 :: rest |} endian = Some n /\
    0 <= n < 2 ^ 32 /\
    byte_at n (if endian_to_bool endian then 0 else 24) = byte_val c0 /\
    byte_at n (if endian_to_bool endian then 8 else 16) = byte_val c1 /\
    byte_at n (if endian_to_bool endian then 16 else 8) = byte_val c2 /\
    byte_at n (if endian_to_bool endian then 24 else 0) = byte_val c3.
Proof.
  intros Hchars.
  inversion_clear Hchars as [|? ? H0 Hc]. inversion_clear Hc as [|? ? H1 Hc'].
  inversion_clear Hc' as [|? ? H2 Hc]. inversion_clear Hc as [|? ? H3 _].
  rewrite FourCC_literal, !char_to_int_nonneg by assumption.
  eexists. split; [reflexivity|]. split.
  - unfold to_uint32. apply Z.mod_pos_bound. lia.
  - destruct endian; cbn [endian_to_bool];
      rewrite !byte_at_pack by (unfold positions; simpl; tauto);
      repeat split; reflexivity.
Qed.

(** X1.  Where no char of a 4-character tag is negative as plain [char],
    [FourCC] with [LITTLE] is the number whose bytes, from the most
    significant one, are the chars of the tag in their order, and with [BIG]
    the number whose bytes are the chars in reverse order. *)
Theorem FourCC_value (char_is_signed : bool) (c0 c1 c2 c3 : byte) :
  Forall (fun c => nonneg_char char_is_signed c = true) [c0; c1; c2; c3] ->
  FourCC char_is_signed (literal [c0; c1; c2; c3]) LITTLE = Some (be_value c0 c1 c2 c3) /\
  FourCC char_is_signed (literal [c0; c1; c2; c3]) BIG = Some (be_value c3 c2 c1 c0).
Proof.
  intros Hchars. unfold literal. cbn [app].
  split.
  - destruct (FourCC_bytes char_is_signed c0 c1 c2 c3 [x00] LITTLE Hchars)
      as (n & E & Hn & B0 & B1 & B2 & B3).
    cbn [endian_to_bool] in *. rewrite E. f_equal.
    rewrite (uint32_bytes_sum n Hn), B0, B1, B2, B3. unfold be_value. lia.
  - destruct (FourCC_bytes char_is_signed c0 c1 c2 c3 [x00] BIG Hchars)
      as (n & E & Hn & B0 & B1 & B2 & B3).
    cbn [endian_to_bool] in *. rewrite E. f_equal.
    rewrite (uint32_bytes_sum n Hn), B0, B1, B2, B3. unfold be_value. lia.
Qed.

(** The tag "MVER", where plain [char] is signed. *)
Lemma FourCC_value_witness :
  Forall (fun c => nonneg_char true c = true) (text "MVER") /\
  FourCC true (literal (text "MVER")) LITTLE = Some 0x4D564552.
Proof.
  assert (H : Forall (fun c => nonneg_char true c = true) (text "MVER"))
    by (repeat constructor).
  split; [exact H|].
  exact (proj1 (FourCC_value true "M" "V" "E" "R" H)).
Defined.

(** X2.  For every 4-character tag, negative chars included, [BIG] encodes
    the tag as [LITTLE] encodes the tag reversed, and the other way round. *)
Theorem FourCC_BIG_is_LITTLE_of_reverse (char_is_signed : bool) (chars : list byte) :
  length chars = 4%nat ->
  FourCC char_is_signed (literal chars) BIG
  = FourCC char_is_signed (literal (rev chars)) LITTLE /\
  FourCC char_is_signed (literal chars) LITTLE
  = FourCC char_is_signed (literal (rev chars)) BIG.
Proof.
  intros Hlen.
  destruct chars as [|c0 [|c1 [|c2 [|c3 [|]]]]]; try discriminate.
  split; reflexivity.
Qed.

(** "REVM" with [BIG] is "MVER" with [LITTLE]. *)
Lemma FourCC_BIG_is_LITTLE_of_reverse_witness :
  FourCC true (literal (text "REVM")) BIG = FourCC true (literal (text "MVER")) LITTLE.
Proof.
  exact (proj1 (FourCC_BIG_is_LITTLE_of_reverse true (text "REVM") eq_refl)).
Defined.

(** X3.  [FourCC] reads the first four stored chars of the literal and no
    other: it is ill-formed exactly when the literal stores fewer than four,
    and chars after the fourth change nothing. *)
Theorem FourCC_reads_four_chars (char_is_signed : bool) (fourcc : StringLiteral)
    (endian : FourCCEndian) :
  (FourCC char_is_signed fourcc endian = None <-> (length (value fourcc) < 4)%nat) /\
  FourCC char_is_signed fourcc endian
  = FourCC char_is_signed {| value := firstn 4 (value fourcc) |} endian.
Proof.
  destruct fourcc as [v].
  destruct v as [|c0 [|c1 [|c2 [|c3 rest]]]]; cbn [value length firstn];
    (split; [split; [intros _; lia | reflexivity] | reflexivity])
    || (split; [|reflexivity]).
  rewrite FourCC_literal. split; [discriminate | lia].
Qed.

(** X4.  Where no char is negative as plain [char], two 4-character tags with
    the same encoding, under either endianness, are the same tag. *)
Theorem FourCC_injective (char_is_signed : bool) (endian : FourCCEndian)
    (s1 s2 : list byte) :
  length s1 = 4%nat -> length s2 = 4%nat ->
  Forall (fun c => nonneg_char char_is_signed c = true) s1 ->
  Forall (fun c => nonneg_char char_is_signed c = true) s2 ->
  FourCC char_is_signed (literal s1) endian = FourCC char_is_signed (literal s2) endian ->
  s1 = s2.
Proof.
  intros L1 L2 H1 H2 E.
  destruct s1 as [|a0 [|a1 [|a2 [|a3 [|]]]]]; try discriminate.
  destruct s2 as [|b0 [|b1 [|b2 [|b3 [|]]]]]; try discriminate.
  unfold literal in E. cbn [app] in E.
  destruct (FourCC_bytes char_is_signed a0 a1 a2 a3 [x00] endian H1)
    as (n & En & _ & A0 & A1 & A2 & A3).
  destruct (FourCC_bytes char_is_signed b0 b1 b2 b3 [x00] endian H2)
    as (m & Em & _ & B0 & B1 & B2 & B3).
  rewrite En, Em in E. injection E as ->.
  rewrite A0 in B0. rewrite A1 in B1. rewrite A2 in B2. rewrite A3 in B3.
  apply byte_val_inj in B0, B1, B2, B3. now subst.
Qed.

(** Two spellings with one encoding are one spelling. *)
Lemma FourCC_injective_witness :
  FourCC false (literal (text "MVER")) LITTLE = FourCC false (literal [x4d; x56; x45; x52]) LITTLE /\
  text "MVER" = [x4d; x56; x45; x52].
Proof.
  assert (E : FourCC false (literal (text "MVER")) LITTLE
              = FourCC false (literal [x4d; x56; x45; x52]) LITTLE) by reflexivity.
  split; [exact E|].
  exact (FourCC_injective false LITTLE (text "MVER") [x4d; x56; x45; x52]
           eq_refl eq_refl ltac:(repeat constructor) ltac:(repeat constructor) E).
Defined.

Lemma narrow_to_char_Some (sgn : bool) (v : Z) (c : byte) :
  0 <= v <= 255 -> narrow_to_char sgn v = Some c ->
  byte_val c = v /\ nonneg_char sgn c = true.
Proof.
  unfold narrow_to_char, nonneg_char. intros Hv H.
  destruct sgn; cbn [andb negb orb] in *.
  - destruct (127 <? v) eqn:E; [discriminate|].
    injection H as <-. rewrite byte_val_of_Z by assumption.
    apply Z.ltb_ge in E. split; [reflexivity | apply Z.ltb_lt; lia].
  - injection H as <-. now rewrite byte_val_of_Z.
Qed.

Lemma narrow_to_char_None (sgn : bool) (v : Z) :
  narrow_to_char sgn v = None <-> sgn = true /\ 127 < v.
Proof.
  unfold narrow_to_char. destruct sgn; cbn [andb].
  - destruct (127 <? v) eqn:E.
    + apply Z.ltb_lt in E. tauto.
    + apply Z.ltb_ge in E. split; [discriminate | intros [_ H]; lia].
  - split; [discriminate | intros [H _]; discriminate].
Qed.

Lemma land_255_range (z : Z) : 0 <= Z.land z 255 <= 255.
Proof.
  rewrite <- (Z.shiftr_0_r z). apply (byte_at_range z 0).
Qed.

Lemma decode_expr_range (x : Z) (big : bool) (i : nat) :
  0 <= decode_expr x big i <= 255.
Proof.
  unfold decode_expr. destruct big, i as [|[|[|i]]]; apply land_255_range.
Qed.

(** X5.  Encoding inverts decoding: for every 32-bit integer and endianness
    for which [FourCCStr] is well-formed, [FourCC] of the decoded array, under
    the same endianness, is the integer again. *)
Theorem FourCC_FourCCStr_inverse (char_is_signed : bool) (fourcc_int : Z)
    (endian : FourCCEndian) (chars : list byte) :
  0 <= fourcc_int < 2 ^ 32 ->
  FourCCStr char_is_signed fourcc_int endian = Some chars ->
  FourCC char_is_signed {| value := chars |} endian = Some fourcc_int.
Proof.
  intros Hx. unfold FourCCStr.
  destruct (narrow_to_char _ (decode_expr _ _ 0)) as [c0|] eqn:E0; try discriminate.
  destruct (narrow_to_char _ (decode_expr _ _ 1)) as [c1|] eqn:E1; try discriminate.
  destruct (narrow_to_char _ (decode_expr _ _ 2)) as [c2|] eqn:E2; try discriminate.
  destruct (narrow_to_char _ (decode_expr _ _ 3)) as [c3|] eqn:E3; try discriminate.
  intros H. injection H as <-.
  apply narrow_to_char_Some in E0, E1, E2, E3; try apply decode_expr_range.
  destruct E0 as [V0 N0], E1 as [V1 N1], E2 as [V2 N2], E3 as [V3 N3].
  destruct (FourCC_bytes char_is_signed c0 c1 c2 c3 [x00] endian)
    as (n & En & Hn & B0 & B1 & B2 & B3); [repeat constructor; assumption|].
  rewrite En. f_equal.
  destruct (decode_expr_byte_at fourcc_int)
    as [(Db0 & Db1 & Db2 & Db3) (Dl0 & Dl1 & Dl2 & Dl3)].
  apply uint32_eq_of_bytes; [assumption | assumption |].
  intros s Hs. unfold positions in Hs. simpl in Hs.
  destruct endian; cbn [endian_to_bool] in *;
    destruct Hs as [<-|[<-|[<-|[<-|[]]]]]; congruence.
Qed.

(** Decoding 0x4D564552 and encoding the result, where plain [char] is signed. *)
Lemma FourCC_FourCCStr_inverse_witness :
  FourCCStr true 0x4D564552 LITTLE = Some (text "MVER" ++ [x00]) /\
  FourCC true {| value := text "MVER" ++ [x00] |} LITTLE = Some 0x4D564552.
Proof.
  assert (H : FourCCStr true 0x4D564552 LITTLE = Some (text "MVER" ++ [x00]))
    by reflexivity.
  split; [exact H|].
  apply (FourCC_FourCCStr_inverse true 0x4D564552 LITTLE _ ltac:(lia) H).
Defined.

(** X6.  [FourCCStr<fourcc_int, endian>] is ill-formed exactly where plain
    [char] is signed and one of the four bytes of the integer is above 0x7F;
    the endianness plays no part. *)
Theorem FourCCStr_ill_formed_iff (char_is_signed : bool) (fourcc_int : Z)
    (endian : FourCCEndian) :
  FourCCStr char_is_signed fourcc_int endian = None <->
  char_is_signed = true /\ exists s, In s positions /\ 127 < byte_at fourcc_int s.
Proof.
  unfold FourCCStr, narrow_to_char.
  destruct (decode_expr_byte_at fourcc_int)
    as [(Db0 & Db1 & Db2 & Db3) (Dl0 & Dl1 & Dl2 & Dl3)].
  destruct char_is_signed; cbn [andb].
  - destruct endian; cbn [endian_to_bool];
      rewrite ?Db0, ?Db1, ?Db2, ?Db3, ?Dl0, ?Dl1, ?Dl2, ?Dl3;
      destruct (127 <? byte_at fourcc_int 0) eqn:E0;
      destruct (127 <? byte_at fourcc_int 8) eqn:E8;
      destruct (127 <? byte_at fourcc_int 16) eqn:E16;
      destruct (127 <? byte_at fourcc_int 24) eqn:E24;
      rewrite ?Z.ltb_lt, ?Z.ltb_ge in *;
      (split;
       [ intros H;
         first [ discriminate H
               | split; [reflexivity|];
                 first [ exists 0; split; [unfold positions; simpl; tauto | assumption]
                       | exists 8; split; [unfold positions; simpl; tauto | assumption]
                       | exists 16; split; [unfold positions; simpl; tauto | assumption]
                       | exists 24; split; [unfold positions; simpl; tauto | assumption] ] ]
       | intros [_ (s & Hin & Hb)];
         first [ reflexivity
               | unfold positions in Hin; simpl in Hin;
                 destruct Hin as [<-|[<-|[<-|[<-|[]]]]]; lia ] ]).
  - split; [discriminate | intros [H _]; discriminate H].
Qed.

(** A tag with the byte 0xD2 cannot be decoded at compile time where plain
    [char] is signed. *)
Lemma FourCCStr_ill_formed_iff_witness :
  FourCCStr true 0x4D5645D2 LITTLE = None.
Proof.
  apply (proj2 (FourCCStr_ill_formed_iff true 0x4D5645D2 LITTLE)).
  split; [reflexivity|]. exists 0. split; [left; reflexivity | reflexivity].
Defined.

Lemma lor_byte_255 (z : Z) : Z.lor (Z.land z 255) 255 = 255.
Proof.
  apply Z.bits_inj'. intros n Hn. rewrite Z.lor_spec, Z.land_spec.
  destruct (Z.testbit 255 n); [apply orb_true_r | now rewrite andb_false_r].
Qed.

(** A shifted char leaves the byte at bit 0 alone, negative or not. *)
Lemma low_byte_of_shifted_all (c : byte) :
  forallb (fun k => byte_at (to_uint32 (Z.shiftl (char_to_int true c) k)) 0 =? 0)
    [8; 16; 24] = true.
Proof. destruct c; vm_compute; reflexivity. Qed.

Lemma low_byte_of_shifted (c : byte) (k : Z) :
  In k [8; 16; 24] -> byte_at (to_uint32 (Z.shiftl (char_to_int true c) k)) 0 = 0.
Proof.
  intros Hk. pose proof (low_byte_of_shifted_all c) as H.
  rewrite forallb_forall in H. apply Z.eqb_eq. now apply H.
Qed.

(** A negative char, converted to 32 bits, has all bits above its own set. *)
Lemma bytes_of_negative_char_all (c : byte) :
  (if 128 <=? byte_val c
   then forallb (fun s => byte_at (to_uint32 (char_to_int true c)) s
                          =? (if s =? 0 then byte_val c else 255)) positions
   else true) = true.
Proof. destruct c; vm_compute; reflexivity. Qed.

Lemma bytes_of_negative_char (c : byte) (s : Z) :
  128 <= byte_val c -> In s positions ->
  byte_at (to_uint32 (char_to_int true c)) s = if s =? 0 then byte_val c else 255.
Proof.
  intros Hc Hs. pose proof (bytes_of_negative_char_all c) as H.
  apply Z.leb_le in Hc. rewrite Hc, forallb_forall in H.
  apply Z.eqb_eq. now apply H.
Qed.

Lemma pack_sign_extends (a b c d : byte) :
  128 <= byte_val d ->
  to_uint32 (int_or (int_or (int_or (int_shl (char_to_int true a) 24)
                                    (int_shl (char_to_int true b) 16))
                            (int_shl (char_to_int true c) 8))
                    (char_to_int true d))
  = 0xFFFFFF00 + byte_val d.
Proof.
  intros Hd. unfold int_or, int_shl.
  rewrite !to_uint32_lor, !to_uint32_to_int32.
  set (A := to_uint32 (Z.shiftl (char_to_int true a) 24)).
  set (B := to_uint32 (Z.shiftl (char_to_int true b) 16)).
  set (C := to_uint32 (Z.shiftl (char_to_int true c) 8)).
  set (D := to_uint32 (char_to_int true d)).
  assert (Hbytes : forall s, In s positions ->
            byte_at (Z.lor (Z.lor (Z.lor A B) C) D) s
            = if s =? 0 then byte_val d else 255).
  { intros s Hs. rewrite byte_at_lor. subst D.
    rewrite (bytes_of_negative_char d s Hd Hs).
    unfold positions in Hs. simpl in Hs.
    destruct Hs as [<-|[<-|[<-|[<-|[]]]]]; cbn [Z.eqb Pos.eqb];
      try apply lor_byte_255.
    rewrite !byte_at_lor. subst A B C.
    rewrite !low_byte_of_shifted by (simpl; tauto). reflexivity. }
  assert (Hrange : 0 <= Z.lor (Z.lor (Z.lor A B) C) D < 2 ^ 32).
  { rewrite <- (Z.mod_small 0 (2 ^ 32)) at 1 by lia.
    subst A B C D. rewrite <- !to_uint32_lor.
    unfold to_uint32. rewrite Z.mod_0_l by lia. apply Z.mod_pos_bound. lia. }
  rewrite (uint32_bytes_sum _ Hrange).
  rewrite !Hbytes by (unfold positions; simpl; tauto).
  cbn [Z.eqb Pos.eqb]. lia.
Qed.

(** X7.  Where plain [char] is signed, a last-combined char of 0x80 or above
    (the fourth with [LITTLE], the first with [BIG]) is promoted to a
    negative [int] and sets the three bytes above it: the encoding is
    0xFFFFFF00 plus that char, whatever the other three chars are. *)
Theorem FourCC_sign_extends (c0 c1 c2 c3 : byte) :
  (128 <= byte_val c3 ->
   FourCC true (literal [c0; c1; c2; c3]) LITTLE = Some (0xFFFFFF00 + byte_val c3)) /\
  (128 <= byte_val c0 ->
   FourCC true (literal [c0; c1; c2; c3]) BIG = Some (0xFFFFFF00 + byte_val c0)).
Proof.
  unfold literal. cbn [app]. rewrite !FourCC_literal. cbn [endian_to_bool].
  split; intros H; f_equal; now apply pack_sign_extends.
Qed.

(** Any tag ending in 0x80, where plain [char] is signed. *)
Lemma FourCC_sign_extends_witness :
  128 <= byte_val x80 /\
  FourCC true (literal [x41; x42; x43; x80]) LITTLE = Some 0xFFFFFF80.
Proof.
  assert (H : 128 <= byte_val x80) by (vm_compute; discriminate).
  split; [exact H|].
  exact (proj1 (FourCC_sign_extends x41 x42 x43 x80) H).
Defined.

(** X8.  The two endiannesses of [FourCCStr] decode one integer to mirror
    images: the [BIG] array is the four chars of the [LITTLE] array in
    reverse order, then the NUL, and one is well-formed when the other is. *)
Theorem FourCCStr_BIG_reverses_LITTLE (char_is_signed : bool) (fourcc_int : Z) :
  FourCCStr char_is_signed fourcc_int BIG
  = option_map (fun chars => rev (firstn 4 chars) ++ [x00])
      (FourCCStr char_is_signed fourcc_int LITTLE).
Proof.
  unfold FourCCStr. cbn [endian_to_bool].
  change (decode_expr fourcc_int true 0) with (decode_expr fourcc_int false 3).
  change (decode_expr fourcc_int true 1) with (decode_expr fourcc_int false 2).
  change (decode_expr fourcc_int true 2) with (decode_expr fourcc_int false 1).
  change (decode_expr fourcc_int true 3) with (decode_expr fourcc_int false 0).
  destruct (narrow_to_char _ (decode_expr _ _ 0));
    destruct (narrow_to_char _ (decode_expr _ _ 1));
    destruct (narrow_to_char _ (decode_expr _ _ 2));
    destruct (narrow_to_char _ (decode_expr _ _ 3)); reflexivity.
Qed.

(** * Further properties of the run-time decoder *)

Lemma string_of_c_str_app_nul (p : list byte) :
  string_of_c_str (p ++ [x00]) = string_of_c_str p.
Proof.
  induction p as [|c p IH]; simpl; [reflexivity|].
  destruct (Byte.eqb c x00); [reflexivity | now rewrite IH].
Qed.

Lemma string_of_c_str_no_nul (p : list byte) :
  Forall (fun c => c <> x00) (string_of_c_str p).
Proof.
  induction p as [|c p IH]; simpl; [constructor|].
  destruct (Byte.eqb c x00) eqn:E; [constructor|].
  constructor; [|exact IH]. now apply eqb_false.
Qed.

Lemma string_of_c_str_prefix (p : list byte) :
  exists rest, p = string_of_c_str p ++ rest.
Proof.
  induction p as [|c p [rest IH]]; simpl; [now exists []|].
  destruct (Byte.eqb c x00).
  - now exists (c :: p).
  - exists rest. simpl. now rewrite <- IH.
Qed.

Lemma string_of_c_str_id (p : list byte) :
  Forall (fun c => c <> x00) p -> string_of_c_str p = p.
Proof.
  induction 1 as [|c p Hc _ IH]; simpl; [reflexivity|].
  now rewrite (eqb_x00_false c Hc), IH.
Qed.

(** X9.  Whatever the integer, [FourCCToStr] returns at most four chars, none
    of them NUL, and they are the leading ones of the four chars decoded from
    the integer; it returns all four when none of these is NUL. *)
Theorem FourCCToStr_shape (fourcc : Z) (is_big_endian : bool) :
  let decoded := map (fun i => static_cast_char (decode_expr fourcc is_big_endian i))
                     [0; 1; 2; 3]%nat in
  (length (FourCCToStr fourcc is_big_endian) <= 4)%nat /\
  Forall (fun c => c <> x00) (FourCCToStr fourcc is_big_endian) /\
  (exists rest, decoded = FourCCToStr fourcc is_big_endian ++ rest) /\
  (Forall (fun c => c <> x00) decoded -> FourCCToStr fourcc is_big_endian = decoded).
Proof.
  intros decoded.
  assert (E : FourCCToStr fourcc is_big_endian = string_of_c_str decoded)
    by (unfold FourCCToStr; apply (string_of_c_str_app_nul decoded)).
  rewrite E.
  destruct (string_of_c_str_prefix decoded) as [rest Hrest].
  split; [|split; [|split]].
  - apply (f_equal (@length byte)) in Hrest. rewrite length_app in Hrest.
    change (length decoded) with 4%nat in Hrest. lia.
  - apply string_of_c_str_no_nul.
  - now exists rest.
  - apply string_of_c_str_id.
Qed.

(** An integer whose third byte is zero decodes to two chars. *)
Lemma FourCCToStr_shape_witness :
  FourCCToStr 0x41420043 false = [x41; x42] /\
  (length (FourCCToStr 0x41420043 false) <= 4)%nat.
Proof.
  split; [reflexivity|].
  exact (proj1 (FourCCToStr_shape 0x41420043 false)).
Defined.

Lemma static_cast_char_byte_val (c : byte) : static_cast_char (byte_val c) = c.
Proof. destruct c; reflexivity. Qed.

(** X10.  The run-time decoder inverts the encoder on text: where no char is
    negative as plain [char], [FourCCToStr] of the encoding of a 4-character
    tag, with the flag of the same endianness, is the tag up to its first
    NUL, and so the whole tag when it has none. *)
Theorem runtime_decode_of_FourCC (char_is_signed : bool) (chars : list byte)
    (endian : FourCCEndian) :
  length chars = 4%nat ->
  Forall (fun c => nonneg_char char_is_signed c = true) chars ->
  exists n,
    FourCC char_is_signed (literal chars) endian = Some n /\
    FourCCToStr n (endian_to_bool endian) = string_of_c_str chars /\
    (Forall (fun c => c <> x00) chars -> FourCCToStr n (endian_to_bool endian) = chars).
Proof.
  intros Hlen Hchars.
  destruct chars as [|c0 [|c1 [|c2 [|c3 [|]]]]]; try discriminate.
  unfold literal. cbn [app].
  destruct (FourCC_bytes char_is_signed c0 c1 c2 c3 [x00] endian Hchars)
    as (n & En & _ & B0 & B1 & B2 & B3).
  exists n. split; [exact En|].
  assert (E : FourCCToStr n (endian_to_bool endian) = string_of_c_str [c0; c1; c2; c3]).
  { unfold FourCCToStr.
    destruct (decode_expr_byte_at n) as [(Db0 & Db1 & Db2 & Db3) (Dl0 & Dl1 & Dl2 & Dl3)].
    destruct endian; cbn [endian_to_bool] in *;
      rewrite ?Db0, ?Db1, ?Db2, ?Db3, ?Dl0, ?Dl1, ?Dl2, ?Dl3, B0, B1, B2, B3,
        !static_cast_char_byte_val;
      apply (string_of_c_str_app_nul [c0; c1; c2; c3]). }
  split; [exact E|].
  intros Hnz. rewrite E. now apply string_of_c_str_id.
Qed.

(** "MVER" encoded and decoded at run time, where plain [char] is signed. *)
Lemma runtime_decode_of_FourCC_witness :
  FourCC true (literal (text "MVER")) LITTLE = Some 0x4D564552 /\
  FourCCToStr 0x4D564552 false = text "MVER".
Proof.
  split; [reflexivity|].
  destruct (runtime_decode_of_FourCC true (text "MVER") LITTLE eq_refl
              ltac:(repeat constructor)) as (n & En & _ & Hn).
  injection En as <-.
  apply Hn. repeat constructor; discriminate.
Defined.

Lemma file_bytes_of_bytes (a b c d : byte) :
  file_bytes (byte_val a + 2 ^ 8 * byte_val b + 2 ^ 16 * byte_val c + 2 ^ 24 * byte_val d)
  = [a; b; c; d].
Proof.
  unfold file_bytes.
  replace (Z.to_N _) with (uint32_from_bytes [a; b; c; d]).
  - exact (to_from_bytes uint32_t uint32_laws [a; b; c; d] eq_refl).
  - unfold uint32_from_bytes, byte_val. cbn [nth].
    change (2 ^ 8)%N with 256%N. change (2 ^ 16)%N with 65536%N.
    change (2 ^ 24)%N with 16777216%N.
    change (2 ^ 8) with 256. change (2 ^ 16) with 65536. change (2 ^ 24) with 16777216.
    lia.
Qed.

(** X11.  On a little-endian target, where no char is negative as plain
    [char]: the integer [FourCC] gives with [BIG] has the chars of the tag
    from left to right as its four bytes in the file, the integer it gives
    with [LITTLE] has them from right to left. *)
Theorem FourCC_file_order (char_is_signed : bool) (c0 c1 c2 c3 : byte) :
  Forall (fun c => nonneg_char char_is_signed c = true) [c0; c1; c2; c3] ->
  exists little big,
    FourCC char_is_signed (literal [c0; c1; c2; c3]) LITTLE = Some little /\
    FourCC char_is_signed (literal [c0; c1; c2; c3]) BIG = Some big /\
    file_bytes big = [c0; c1; c2; c3] /\
    file_bytes little = [c3; c2; c1; c0].
Proof.
  intros Hchars. unfold literal. cbn [app].
  destruct (FourCC_bytes char_is_signed c0 c1 c2 c3 [x00] LITTLE Hchars)
    as (l & El & Hl & L0 & L1 & L2 & L3).
  destruct (FourCC_bytes char_is_signed c0 c1 c2 c3 [x00] BIG Hchars)
    as (b & Eb & Hb & B0 & B1 & B2 & B3).
  cbn [endian_to_bool] in *.
  exists l, b. split; [exact El|]. split; [exact Eb|]. split.
  - rewrite (uint32_bytes_sum b Hb), B0, B1, B2, B3. apply file_bytes_of_bytes.
  - rewrite (uint32_bytes_sum l Hl), L0, L1, L2, L3. apply file_bytes_of_bytes.
Qed.

(** The chunk tag "MVER" is spelled "REVM" in the file. *)
Lemma FourCC_file_order_witness :
  FourCC true (literal (text "MVER")) LITTLE = Some 0x4D564552 /\
  file_bytes 0x4D564552 = text "REVM".
Proof.
  split; [reflexivity|].
  destruct (FourCC_file_order true "M" "V" "E" "R" ltac:(repeat constructor))
    as (l & b & El & _ & _ & Hl).
  injection El as <-. exact Hl.
Defined.

(** * A default-constructed array chunk *)

Lemma impl_size_default {T : Type} (k : ImplKind) (x : T) :
  impl_size (impl_default k x) = match k with StdArray n => n | StdVector => 0%N end.
Proof. destruct k; reflexivity. Qed.

(** X12.  A default-constructed array chunk is not initialized.  Of a
    fixed-capacity instantiation it reports [Size() == size_max] and the
    [ByteSize()] of [size_max] elements all the same; of any other
    instantiation it reports 0 for both. *)
Theorem default_constructed_sizes (T : Type) (pod : PODType T)
    (size_min size_max : N) (indeterminate : T) :
  DataArrayChunk.IsInitialized size_min size_max
    (DataArrayChunk.default_ctor size_min size_max indeterminate) = false /\
  (size_min = size_max /\ (size_max < size_t_max)%N ->
   DataArrayChunk.Size size_min size_max
     (DataArrayChunk.default_ctor size_min size_max indeterminate) = size_max /\
   DataArrayChunk.ByteSize size_min size_max
     (DataArrayChunk.default_ctor size_min size_max indeterminate)
   = size_t_mul size_max (N.of_nat sizeof)) /\
  (~ (size_min = size_max /\ (size_max < size_t_max)%N) ->
   DataArrayChunk.Size size_min size_max
     (DataArrayChunk.default_ctor size_min size_max indeterminate) = 0%N /\
   DataArrayChunk.ByteSize size_min size_max
     (DataArrayChunk.default_ctor size_min size_max indeterminate) = 0%N).
Proof.
  unfold DataArrayChunk.Size, DataArrayChunk.ByteSize, DataArrayChunk.default_ctor.
  cbn [DataArrayChunk._data]. rewrite impl_size_default.
  split; [reflexivity|]. split.
  - intros [Heq Hlt]. rewrite (ArrayImplT_kind_fixed _ _ Heq Hlt). now split.
  - intros Hn. rewrite (ArrayImplT_kind_growable _ _ Hn). now split.
Qed.

(** A chunk of exactly two 4-byte records, never initialized: eight bytes. *)
Lemma default_constructed_sizes_witness :
  (2 = 2 /\ 2 < size_t_max)%N /\
  DataArrayChunk.ByteSize (T := uint32_t) 2 2 (DataArrayChunk.default_ctor 2 2 0%N) = 8%N.
Proof.
  assert (H : (2 = 2 /\ 2 < size_t_max)%N) by (split; reflexivity).
  split; [exact H|].
  exact (proj2 (proj1 (proj2 (default_constructed_sizes uint32_t _ 2 2 0%N)) H)).
Defined.

(** * Client versions and locales *)

(** X13.  [ClientLocaleStr] has an entry for every locale but [AUTO], whose
    value is the length of the array, one past its last element; different
    locales have different entries. *)
Theorem ClientLocaleStr_covers_locales :
  (forall locale, ClientLocaleStr_at locale = None <-> locale = AUTO) /\
  (forall l1 l2 name,
     ClientLocaleStr_at l1 = Some name -> ClientLocaleStr_at l2 = Some name -> l1 = l2) /\
  length ClientLocaleStr = ClientLocale_value AUTO.
Proof.
  split; [|split].
  - intros locale. destruct locale; vm_compute; split; congruence.
  - intros l1 l2 name. destruct l1, l2; vm_compute; congruence.
  - reflexivity.
Qed.

(** X14.  The values of [ClientVersion] tell the versions apart; [ANY] is
    above every other version; every remaster is one above a retail
    expansion and below every later retail expansion. *)
Theorem ClientVersion_order :
  (forall v w, ClientVersion_value v = ClientVersion_value w -> v = w) /\
  (forall v, v <> ANY -> ClientVersion_value v < ClientVersion_value ANY) /\
  (forall r, is_remaster r = true ->
     exists b, is_retail b = true /\
       ClientVersion_value r = ClientVersion_value b + 1 /\
       forall v, is_retail v = true ->
         ClientVersion_value b < ClientVersion_value v ->
         ClientVersion_value r < ClientVersion_value v).
Proof.
  split; [|split].
  - intros v w. destruct v, w; simpl; intros E; congruence.
  - intros v Hv. destruct v; simpl; try lia. contradiction.
  - intros r Hr. destruct r; try discriminate Hr.
    + exists BFA. split; [reflexivity|]. split; [reflexivity|].
      intros v Hv. destruct v; simpl; try lia; discriminate Hv.
    + exists SL. split; [reflexivity|]. split; [reflexivity|].
      intros v Hv. destruct v; simpl; try lia; discriminate Hv.
    + exists DF. split; [reflexivity|]. split; [reflexivity|].
      intros v Hv. destruct v; simpl; try lia; discriminate Hv.
Qed.

(** [AUTO] names no entry of the array. *)
Lemma ClientLocaleStr_covers_locales_witness :
  ClientLocaleStr_at AUTO = None /\ ClientLocaleStr_at ruRU = Some "ruRU"%string.
Proof.
  split; [|reflexivity].
  exact (proj2 (proj1 ClientLocaleStr_covers_locales AUTO) eq_refl).
Defined.

(** A remaster is below [ANY], and one above its retail expansion. *)
Lemma ClientVersion_order_witness :
  ClientVersion_value WOTLK_NEW < ClientVersion_value ANY /\
  exists b, is_retail b = true /\ ClientVersion_value WOTLK_NEW = ClientVersion_value b + 1.
Proof.
  destruct ClientVersion_order as (_ & Hany & Hremaster).
  split.
  - apply Hany. discriminate.
  - destruct (Hremaster WOTLK_NEW eq_refl) as (b & Hb & Hv & _).
    exists b. split; assumption.
Defined.
